(** * RxCacheItem: a shallow embedding of [rxcache-item.ts]

    The class [RxCacheItem<T>] of [projects/ngx-rxcache/src/lib/models/rxcache-item.ts]
    is embedded method by method.  The cell's fields form a record, the rxjs
    objects it owns ([BehaviorSubject]s and [Subscription]s) are modelled
    with the part of their behaviour the class relies on, and every method is
    a computation in a small state-and-exception monad over the cell and the
    store of subscriptions it has started.

    Naming: a trailing [$] of the source is written [_S] ([loaded$] is
    [loaded_S], the private field [_loaded$] is [_loaded_S]). *)

From stdpp Require Import base option list strings.

Set Default Proof Using "Type".
Local Open Scope string_scope.

(** ** JavaScript strings and [||] *)

(** A value of TypeScript type [string] that may also be [undefined]. *)
Definition JsString : Type := option string.

(** JavaScript truthiness of such a value: [undefined] and the empty string
    are falsy, every other string is truthy. *)
Definition truthy (s : JsString) : bool :=
  match s with
  | Some s => negb (String.eqb s "")
  | None => false
  end.

(** [a || b] on strings: the left operand when it is truthy, else the right
    operand, whatever it is. *)
Definition js_or (a b : JsString) : JsString := if truthy a then a else b.

(** [a || b] where the operands are functions or objects (always truthy when
    defined). *)
Definition js_or_obj {A} (a b : option A) : option A :=
  match a with
  | Some _ => a
  | None => b
  end.

(** [typeof x !== 'undefined'] *)
Definition defined {A} (x : option A) : bool :=
  match x with
  | Some _ => true
  | None => false
  end.

(** ** rxjs [BehaviorSubject]

    What the class uses of it: the constructor, [next], [complete] and
    [getValue].  The class never calls [unsubscribe] or [error] on a subject,
    so a subject is never [closed] nor in error, and [getValue], [next] and
    [complete] never throw.  [next] stores the value unconditionally
    ([super.next(this._value = value)]) and pushes it to the observers only
    while the subject is not stopped; [complete] stops it.  [observed] is
    what an observer subscribed since the subject's creation has been sent. *)

Inductive Notification (A : Type) : Type :=
| OnNext (a : A)
| OnComplete.
Arguments OnNext {A} a.
Arguments OnComplete {A}.

Record BehaviorSubject (A : Type) : Type := mkBehaviorSubject {
  _value : A;
  isStopped : bool;
  observed : list (Notification A)
}.
Arguments mkBehaviorSubject {A} _ _ _.
Arguments _value {A} _.
Arguments isStopped {A} _.
Arguments observed {A} _.

Module BehaviorSubject.

Definition new {A} (a : A) : BehaviorSubject A :=
  mkBehaviorSubject a false [].

Definition getValue {A} (b : BehaviorSubject A) : A := _value b.

Definition next {A} (v : A) (b : BehaviorSubject A) : BehaviorSubject A :=
  mkBehaviorSubject v (isStopped b)
    (if isStopped b then observed b else observed b ++ [OnNext v]).

Definition complete {A} (b : BehaviorSubject A) : BehaviorSubject A :=
  mkBehaviorSubject (_value b) true
    (if isStopped b then observed b else observed b ++ [OnComplete]).

End BehaviorSubject.

(** ** rxjs [Subscription]s

    [construct().subscribe(next, error)] returns a subscription.  What matters
    of it is whether it is still open: once it is closed (by [unsubscribe], or
    because the observable failed or completed) rxjs delivers nothing more to
    its callbacks.  The observables are taken to deliver asynchronously: the
    notifications of a started load or save arrive as later events. *)

Record Subscription (Source : Type) : Type := mkSubscription {
  source : Source;
  closed : bool
}.
Arguments mkSubscription {Source} _ _.
Arguments source {Source} _.
Arguments closed {Source} _.

(** The subscription of [save]: [persist(value).pipe(takeUntil(finalise))],
    with the value handed to the sink and the caller's callback captured by
    the closure. *)
Record SaveSubscription (T Sink Callback : Type) : Type := mkSaveSubscription {
  sink : Sink;
  sent : option T;
  onSaved : option Callback;
  finalised : bool
}.
Arguments mkSaveSubscription {T Sink Callback} _ _ _ _.
Arguments sink {T Sink Callback} _.
Arguments sent {T Sink Callback} _.
Arguments onSaved {T Sink Callback} _.
Arguments finalised {T Sink Callback} _.

Section RxCacheItem.

(** [T] is the type of the cached value, [Err] the type of the errors the
    observables fail with, [Ack] what a sink answers.  [Source] names the
    functions [() => Observable<T>], [Sink] the functions
    [(val: T) => Observable<any>] and [Callback] the functions
    [(val: any) => void] handed to the cell; calling one is recorded, its
    own effects are outside the cell. *)
Context {T Err Ack Source Sink Callback : Type}.

(** Modelled from the spec: the interface [RxCacheItemConfig<T>] of
    [./rxcache-item-config], whose declaration is not part of the sources.
    Its fields are the recognised options of the configuration surface; every
    one but [id] is optional, and an omitted [load] is falsy. *)
Record RxCacheItemConfig : Type := mkConfig {
  cfg_id : string;
  cfg_initialValue : option T;
  cfg_genericError : JsString;
  cfg_construct : option Source;
  cfg_persist : option Sink;
  cfg_saved : option Callback;
  cfg_errorHandler : option (Err -> JsString);
  cfg_load : bool
}.

(** Modelled from the spec: the object [globalConfig] of [./global-config],
    not part of the sources: an optional handler and a generic text. *)
Record GlobalConfig : Type := mkGlobalConfig {
  g_errorHandler : option (Err -> JsString);
  g_genericError : string
}.

(** The fields of the class, in the order of the source. *)
Record RxCacheItem : Type := mkRxCacheItem {
  id : string;
  genericError : JsString;
  construct : option Source;
  persist : option Sink;
  saved : option Callback;
  errorHandler : option (Err -> JsString);
  subscription : option nat;
  instance_S : BehaviorSubject (option T);
  _loaded_S : option (BehaviorSubject bool);
  _loading_S : option (BehaviorSubject bool);
  _saving_S : option (BehaviorSubject bool);
  _saved_S : option (BehaviorSubject bool);
  _hasError_S : option (BehaviorSubject bool);
  _error_S : option (BehaviorSubject JsString)
}.

(** The cell together with the objects it has created outside itself: the
    subscriptions of the loads it started, oldest first ([subscription] of
    the cell refers to one of them by position), those of its saves, and the
    calls it made to callbacks. *)
Record World : Type := mkWorld {
  this : RxCacheItem;
  loads : list (Subscription Source);
  saves : list (SaveSubscription T Sink Callback);
  called : list (Callback * Ack)
}.

(** ** The monad of methods: state and a thrown [TypeError] *)

Inductive Result (A : Type) : Type :=
| Ok (a : A) (w : World)
| Throw (w : World).
Arguments Ok {A} a w.
Arguments Throw {A} w.

Definition M (A : Type) : Type := World -> Result A.

Definition ret {A} (a : A) : M A := fun w => Ok a w.

Definition bind {A B} (m : M A) (k : A -> M B) : M B :=
  fun w => match m w with
           | Ok a w' => k a w'
           | Throw w' => Throw w'
           end.

Definition throw {A} : M A := fun w => Throw w.

Definition read {A} (f : RxCacheItem -> A) : M A := fun w => Ok (f (this w)) w.

Definition on_this (f : RxCacheItem -> RxCacheItem) (w : World) : World :=
  mkWorld (f (this w)) (loads w) (saves w) (called w).

Definition modify (f : RxCacheItem -> RxCacheItem) : M unit :=
  fun w => Ok tt (on_this f w).

Definition when (b : bool) (m : M unit) : M unit := if b then m else ret tt.

(** The world a computation leaves, whether it returned or threw. *)
Definition world_of {A} (r : Result A) : World :=
  match r with
  | Ok _ w => w
  | Throw w => w
  end.

Definition returns {A} (r : Result A) : bool :=
  match r with
  | Ok _ _ => true
  | Throw _ => false
  end.

Local Notation "'do' x <- m ; k" := (bind m (fun x => k))
  (at level 10, x name, m at level 100, k at level 200).

(** ** Field updates *)

Definition set_genericError (x : JsString) (c : RxCacheItem) : RxCacheItem :=
  mkRxCacheItem (id c) x (construct c) (persist c) (saved c) (errorHandler c)
    (subscription c) (instance_S c) (_loaded_S c) (_loading_S c) (_saving_S c)
    (_saved_S c) (_hasError_S c) (_error_S c).

Definition set_construct (x : option Source) (c : RxCacheItem) : RxCacheItem :=
  mkRxCacheItem (id c) (genericError c) x (persist c) (saved c) (errorHandler c)
    (subscription c) (instance_S c) (_loaded_S c) (_loading_S c) (_saving_S c)
    (_saved_S c) (_hasError_S c) (_error_S c).

Definition set_persist (x : option Sink) (c : RxCacheItem) : RxCacheItem :=
  mkRxCacheItem (id c) (genericError c) (construct c) x (saved c) (errorHandler c)
    (subscription c) (instance_S c) (_loaded_S c) (_loading_S c) (_saving_S c)
    (_saved_S c) (_hasError_S c) (_error_S c).

Definition set_saved (x : option Callback) (c : RxCacheItem) : RxCacheItem :=
  mkRxCacheItem (id c) (genericError c) (construct c) (persist c) x (errorHandler c)
    (subscription c) (instance_S c) (_loaded_S c) (_loading_S c) (_saving_S c)
    (_saved_S c) (_hasError_S c) (_error_S c).

Definition set_errorHandler (x : option (Err -> JsString)) (c : RxCacheItem)
  : RxCacheItem :=
  mkRxCacheItem (id c) (genericError c) (construct c) (persist c) (saved c) x
    (subscription c) (instance_S c) (_loaded_S c) (_loading_S c) (_saving_S c)
    (_saved_S c) (_hasError_S c) (_error_S c).

Definition set_subscription (x : option nat) (c : RxCacheItem) : RxCacheItem :=
  mkRxCacheItem (id c) (genericError c) (construct c) (persist c) (saved c)
    (errorHandler c) x (instance_S c) (_loaded_S c) (_loading_S c) (_saving_S c)
    (_saved_S c) (_hasError_S c) (_error_S c).

Definition set_instance_S (x : BehaviorSubject (option T)) (c : RxCacheItem)
  : RxCacheItem :=
  mkRxCacheItem (id c) (genericError c) (construct c) (persist c) (saved c)
    (errorHandler c) (subscription c) x (_loaded_S c) (_loading_S c) (_saving_S c)
    (_saved_S c) (_hasError_S c) (_error_S c).

Definition set_loaded_S (x : option (BehaviorSubject bool)) (c : RxCacheItem)
  : RxCacheItem :=
  mkRxCacheItem (id c) (genericError c) (construct c) (persist c) (saved c)
    (errorHandler c) (subscription c) (instance_S c) x (_loading_S c) (_saving_S c)
    (_saved_S c) (_hasError_S c) (_error_S c).

Definition set_loading_S (x : option (BehaviorSubject bool)) (c : RxCacheItem)
  : RxCacheItem :=
  mkRxCacheItem (id c) (genericError c) (construct c) (persist c) (saved c)
    (errorHandler c) (subscription c) (instance_S c) (_loaded_S c) x (_saving_S c)
    (_saved_S c) (_hasError_S c) (_error_S c).

Definition set_saving_S (x : option (BehaviorSubject bool)) (c : RxCacheItem)
  : RxCacheItem :=
  mkRxCacheItem (id c) (genericError c) (construct c) (persist c) (saved c)
    (errorHandler c) (subscription c) (instance_S c) (_loaded_S c) (_loading_S c) x
    (_saved_S c) (_hasError_S c) (_error_S c).

Definition set_saved_S (x : option (BehaviorSubject bool)) (c : RxCacheItem)
  : RxCacheItem :=
  mkRxCacheItem (id c) (genericError c) (construct c) (persist c) (saved c)
    (errorHandler c) (subscription c) (instance_S c) (_loaded_S c) (_loading_S c)
    (_saving_S c) x (_hasError_S c) (_error_S c).

Definition set_hasError_S (x : option (BehaviorSubject bool)) (c : RxCacheItem)
  : RxCacheItem :=
  mkRxCacheItem (id c) (genericError c) (construct c) (persist c) (saved c)
    (errorHandler c) (subscription c) (instance_S c) (_loaded_S c) (_loading_S c)
    (_saving_S c) (_saved_S c) x (_error_S c).

Definition set_error_S (x : option (BehaviorSubject JsString)) (c : RxCacheItem)
  : RxCacheItem :=
  mkRxCacheItem (id c) (genericError c) (construct c) (persist c) (saved c)
    (errorHandler c) (subscription c) (instance_S c) (_loaded_S c) (_loading_S c)
    (_saving_S c) (_saved_S c) (_hasError_S c) x.

(** ** The lazily created status subjects

    A [Slot] names one of the private fields [_loaded$] ... [_error$], which
    holds a subject or is still [undefined].  The subjects are shared mutable
    objects; a slot is the reference through which the cell and its
    callbacks reach one. *)

Inductive Slot : Type -> Type :=
| loaded_slot : Slot bool
| loading_slot : Slot bool
| saving_slot : Slot bool
| saved_slot : Slot bool
| hasError_slot : Slot bool
| error_slot : Slot JsString.

Definition slot_get {A} (s : Slot A) : RxCacheItem -> option (BehaviorSubject A) :=
  match s with
  | loaded_slot => _loaded_S
  | loading_slot => _loading_S
  | saving_slot => _saving_S
  | saved_slot => _saved_S
  | hasError_slot => _hasError_S
  | error_slot => _error_S
  end.

Definition slot_set {A} (s : Slot A)
  : option (BehaviorSubject A) -> RxCacheItem -> RxCacheItem :=
  match s with
  | loaded_slot => set_loaded_S
  | loading_slot => set_loading_S
  | saving_slot => set_saving_S
  | saved_slot => set_saved_S
  | hasError_slot => set_hasError_S
  | error_slot => set_error_S
  end.

(** [this._x$.next(v)] on the private field itself: a [TypeError] when the
    field is still [undefined]. *)
Definition slot_next {A} (s : Slot A) (v : A) : M unit :=
  do o <- read (slot_get s);
  match o with
  | Some b => modify (slot_set s (Some (BehaviorSubject.next v b)))
  | None => throw
  end.

(** [this._x$.getValue()] *)
Definition slot_getValue {A} (s : Slot A) : M A :=
  do o <- read (slot_get s);
  match o with
  | Some b => ret (BehaviorSubject.getValue b)
  | None => throw
  end.

(** The shape shared by the six getters: create the subject on first access
    with its initial value, and return it. *)
Definition getter {A} (s : Slot A) (init : RxCacheItem -> A) : M (Slot A) :=
  do o <- read (slot_get s);
  match o with
  | Some _ => ret s
  | None =>
      do a <- read init;
      do _ <- modify (slot_set s (Some (BehaviorSubject.new a)));
      ret s
  end.

(** [typeof this.instance$.getValue() !== 'undefined'] *)
Definition has_value (c : RxCacheItem) : bool :=
  defined (BehaviorSubject.getValue (instance_S c)).

Definition loaded_S : M (Slot bool) := getter loaded_slot has_value.

Definition loading_S : M (Slot bool) := getter loading_slot (fun _ => false).

Definition saving_S : M (Slot bool) := getter saving_slot (fun _ => false).

Definition saved_S : M (Slot bool) := getter saved_slot (fun _ => false).

Definition hasError_S : M (Slot bool) := getter hasError_slot (fun _ => false).

Definition error_S : M (Slot JsString) := getter error_slot (fun _ => None).

(** [private next(bs, value)] *)
Definition next {A} (bs : Slot A) (value : A) : M unit :=
  do o <- read (slot_get bs);
  match o with
  | Some b => modify (slot_set bs (Some (BehaviorSubject.next value b)))
  | None => ret tt
  end.

(** [private complete(bs)] *)
Definition complete {A} (bs : Slot A) : M unit :=
  do o <- read (slot_get bs);
  match o with
  | Some b => modify (slot_set bs (Some (BehaviorSubject.complete b)))
  | None => ret tt
  end.

(** [this.instance$.next(v)] and [this.instance$.complete()] *)
Definition instance_next (v : option T) : M unit :=
  modify (fun c => set_instance_S (BehaviorSubject.next v (instance_S c)) c).

Definition instance_complete : M unit :=
  modify (fun c => set_instance_S (BehaviorSubject.complete (instance_S c)) c).

(** ** Subscriptions *)

Definition close (s : Subscription Source) : Subscription Source :=
  mkSubscription (source s) true.

Definition finalise (s : SaveSubscription T Sink Callback)
  : SaveSubscription T Sink Callback :=
  mkSaveSubscription (sink s) (sent s) (onSaved s) true.

(** [subscription.unsubscribe()] on the [i]-th subscription. *)
Definition close_load (i : nat) : M unit :=
  fun w => Ok tt (mkWorld (this w) (alter close i (loads w)) (saves w) (called w)).

Definition close_save (j : nat) : M unit :=
  fun w => Ok tt (mkWorld (this w) (loads w) (alter finalise j (saves w)) (called w)).

(** [f().subscribe(...)]: a new, open subscription; its position is the
    reference the cell keeps. *)
Definition subscribe (f : Source) : M nat :=
  fun w => Ok (length (loads w))
              (mkWorld (this w) (loads w ++ [mkSubscription f false]) (saves w)
                       (called w)).

Definition subscribe_save (p : Sink) (v : option T) (cb : option Callback) : M unit :=
  fun w => Ok tt (mkWorld (this w) (loads w)
                          (saves w ++ [mkSaveSubscription p v cb false]) (called w)).

(** Calling a callback [(val: any) => void]. *)
Definition call (cb : Callback) (val : Ack) : M unit :=
  fun w => Ok tt (mkWorld (this w) (loads w) (saves w) (called w ++ [(cb, val)])).

(** ** The methods of the class *)

(** [globalConfig], imported from [./global-config]. *)
Variable globalConfig : GlobalConfig.

Definition unsubscribe : M unit :=
  do s <- read subscription;
  match s with
  | Some i =>
      do _ <- close_load i;
      modify (set_subscription None)
  | None => ret tt
  end.

Definition generateErrorMessage (error : Err) : M JsString :=
  do h <- read errorHandler;
  do g <- read genericError;
  match h with
  | Some handler =>
      ret (js_or (js_or (handler error) g) (Some (g_genericError globalConfig)))
  | None => throw
  end.

Definition runErrorHandler (error : Err) : M unit :=
  let globalConfigError :=
    match g_errorHandler globalConfig with
    | Some handler => handler error
    | None => Some (g_genericError globalConfig)
    end in
  do error_ <- error_S;
  do h <- read errorHandler;
  do own <- (if defined h then generateErrorMessage error else read genericError);
  do _ <- slot_next error_
            (js_or (js_or own globalConfigError) (Some (g_genericError globalConfig)));
  do hasError_ <- hasError_S;
  do _ <- slot_next hasError_ true;
  do c <- read construct;
  do _ <- when (defined c)
            (do loaded_ <- loaded_S;
             do _ <- slot_next loaded_ false;
             do loading_ <- loading_S;
             slot_next loading_ false);
  do p <- read persist;
  when (defined p)
    (do saved_ <- saved_S;
     do _ <- slot_next saved_ false;
     do saving_ <- saving_S;
     slot_next saving_ false).

Definition refresh : M unit :=
  do c <- read construct;
  match c with
  | Some f =>
      do loading_ <- loading_S;
      do _ <- slot_next loading_ true;
      do loaded_ <- loaded_S;
      do _ <- slot_next loaded_ false;
      do hasError_ <- hasError_S;
      do _ <- slot_next hasError_ false;
      do error_ <- error_S;
      do _ <- slot_next error_ None;
      do _ <- unsubscribe;
      do i <- subscribe f;
      modify (set_subscription (Some i))
  | None => ret tt
  end.

Definition configure (config : RxCacheItemConfig) : M unit :=
  let hasInitialValue := defined (cfg_initialValue config) in
  do hasValue <- read has_value;
  do _ <- when (hasInitialValue && negb hasValue)
            (do _ <- instance_next (cfg_initialValue config);
             next loaded_slot true);
  do _ <- modify (fun c => set_genericError
                             (js_or (cfg_genericError config) (genericError c)) c);
  do _ <- modify (fun c => set_construct
                             (js_or_obj (cfg_construct config) (construct c)) c);
  do _ <- modify (fun c => set_persist
                             (js_or_obj (cfg_persist config) (persist c)) c);
  do _ <- modify (fun c => set_saved (js_or_obj (cfg_saved config) (saved c)) c);
  do _ <- modify (fun c => set_errorHandler
                             (js_or_obj (cfg_errorHandler config) (errorHandler c)) c);
  do _ <- when (defined (cfg_construct config)) unsubscribe;
  when (cfg_load config) refresh.

(** [get value$()]: the conjunction is evaluated left to right, so the
    [loaded$] getter runs only when a source is configured. *)
Definition value_S : M unit :=
  do c <- read construct;
  match c with
  | Some _ =>
      do loaded_ <- loaded_S;
      do l <- slot_getValue loaded_;
      when (negb l) refresh
  | None => ret tt
  end.

(** [update(value)]: the parameter is untyped, [undefined] included. *)
Definition update (value : option T) : M unit :=
  do _ <- instance_next value;
  do _ <- next hasError_slot false;
  do _ <- next error_slot None;
  do _ <- next loaded_slot true;
  next loading_slot false.

Definition save (saved_arg : option Callback) : M unit :=
  do p <- read persist;
  match p with
  | Some persist_ =>
      do saving_ <- saving_S;
      do _ <- slot_next saving_ true;
      do saved_ <- saved_S;
      do _ <- slot_next saved_ false;
      do hasError_ <- hasError_S;
      do _ <- slot_next hasError_ false;
      do error_ <- error_S;
      do _ <- slot_next error_ None;
      do v <- read (fun c => BehaviorSubject.getValue (instance_S c));
      subscribe_save persist_ v saved_arg
  | None => ret tt
  end.

Definition reload (construct_arg : Source) : M unit :=
  do loaded_ <- loaded_S;
  do _ <- slot_next loaded_ false;
  do loading_ <- loading_S;
  do _ <- slot_next loading_ true;
  do hasError_ <- hasError_S;
  do _ <- slot_next hasError_ false;
  do error_ <- error_S;
  do _ <- slot_next error_ None;
  do _ <- unsubscribe;
  do _ <- modify (set_construct (Some construct_arg));
  do i <- subscribe construct_arg;
  modify (set_subscription (Some i)).

Definition reset (item : option T) : M unit :=
  do _ <- next loaded_slot false;
  do _ <- next loading_slot false;
  do _ <- next hasError_slot false;
  do _ <- next error_slot None;
  do _ <- instance_next item;
  unsubscribe.

Definition finish : M unit :=
  do _ <- instance_complete;
  do _ <- complete loading_slot;
  do _ <- complete loaded_slot;
  do _ <- complete error_slot;
  do _ <- complete hasError_slot;
  unsubscribe.

(** [constructor(config)] *)
Definition new (config : RxCacheItemConfig) : Result unit :=
  configure config
    (mkWorld
       (mkRxCacheItem (cfg_id config) None None None None None None
          (BehaviorSubject.new (cfg_initialValue config))
          None None None None None None)
       [] [] []).

(** ** The callbacks handed to [subscribe]

    rxjs runs them when the observable of a subscription that is still open
    notifies; a closed subscription, or one that does not exist, delivers
    nothing. *)

(** The [next] callback of [refresh] and [reload], for an emitted [item]. *)
Definition load_next (i : nat) (item : T) : M unit :=
  fun w =>
    match loads w !! i with
    | Some s =>
        if closed s then Ok tt w
        else (do _ <- instance_next (Some item);
              do _ <- slot_next loaded_slot true;
              slot_next loading_slot false) w
    | None => Ok tt w
    end.

(** Their [error] callback; the failed subscription is closed. *)
Definition load_error (i : nat) (error : Err) : M unit :=
  fun w =>
    match loads w !! i with
    | Some s =>
        if closed s then Ok tt w
        else (do _ <- runErrorHandler error;
              close_load i) w
    | None => Ok tt w
    end.

(** The observable of a load completes: no callback, the subscription is
    closed. *)
Definition load_complete (i : nat) : M unit :=
  fun w =>
    match loads w !! i with
    | Some s => if closed s then Ok tt w else close_load i w
    | None => Ok tt w
    end.

(** The [next] callback of [save]; [finalise.next(true)] then ends the
    subscription through [takeUntil]. *)
Definition save_next (j : nat) (val : Ack) : M unit :=
  fun w =>
    match saves w !! j with
    | Some s =>
        if finalised s then Ok tt w
        else (do _ <- match onSaved s with
                      | Some cb => call cb val
                      | None => ret tt
                      end;
              do cb' <- read saved;
              do _ <- match cb' with
                      | Some cb => call cb val
                      | None => ret tt
                      end;
              do _ <- slot_next saved_slot true;
              do _ <- slot_next saving_slot false;
              close_save j) w
    | None => Ok tt w
    end.

Definition save_error (j : nat) (error : Err) : M unit :=
  fun w =>
    match saves w !! j with
    | Some s =>
        if finalised s then Ok tt w
        else (do _ <- runErrorHandler error;
              close_save j) w
    | None => Ok tt w
    end.

Definition save_complete (j : nat) : M unit :=
  fun w =>
    match saves w !! j with
    | Some s => if finalised s then Ok tt w else close_save j w
    | None => Ok tt w
    end.

(** ** The methods as state transformers

    The effect of the recurring steps of the methods, written as functions
    on the cell; the lemmas below show that the methods compute them. *)

(** [this.x$.next(v)] through the getter: the subject is created when it
    does not exist yet. *)
Definition emit {A} (s : Slot A) (init : RxCacheItem -> A) (v : A)
    (c : RxCacheItem) : RxCacheItem :=
  slot_set s
    (Some (BehaviorSubject.next v
             (default (BehaviorSubject.new (init c)) (slot_get s c)))) c.

(** The getter alone. *)
Definition materialise {A} (s : Slot A) (init : RxCacheItem -> A)
    (c : RxCacheItem) : RxCacheItem :=
  slot_set s (Some (default (BehaviorSubject.new (init c)) (slot_get s c))) c.

(** The guarded [next] and [complete]. *)
Definition quiet_next {A} (s : Slot A) (v : A) (c : RxCacheItem) : RxCacheItem :=
  slot_set s (BehaviorSubject.next v <$> slot_get s c) c.

Definition quiet_complete {A} (s : Slot A) (c : RxCacheItem) : RxCacheItem :=
  slot_set s (BehaviorSubject.complete <$> slot_get s c) c.

Definition unsubscribed (w : World) : World :=
  mkWorld (set_subscription None (this w))
    (match subscription (this w) with
     | Some i => alter close i (loads w)
     | None => loads w
     end)
    (saves w) (called w).

Definition started (f : Source) (w : World) : World :=
  mkWorld (set_subscription (Some (length (loads w))) (this w))
    (loads w ++ [mkSubscription f false]) (saves w) (called w).

(** The four notifications that open a load ([refresh], [reload]) or a save. *)
Definition load_flags (c : RxCacheItem) : RxCacheItem :=
  emit error_slot (fun _ => None) None
    (emit hasError_slot (fun _ => false) false
       (emit loaded_slot has_value false
          (emit loading_slot (fun _ => false) true c))).

Definition save_flags (c : RxCacheItem) : RxCacheItem :=
  emit error_slot (fun _ => None) None
    (emit hasError_slot (fun _ => false) false
       (emit saved_slot (fun _ => false) false
          (emit saving_slot (fun _ => false) true c))).

Definition refreshed (w : World) : World :=
  match construct (this w) with
  | Some f => started f (unsubscribed (on_this load_flags w))
  | None => w
  end.

Definition reloaded (f : Source) (w : World) : World :=
  started f (on_this (set_construct (Some f)) (unsubscribed (on_this load_flags w))).

(** The text [runErrorHandler] hands to [error$]. *)
Definition error_text (c : RxCacheItem) (error : Err) : JsString :=
  js_or
    (js_or
       match errorHandler c with
       | Some handler =>
           js_or (js_or (handler error) (genericError c))
                 (Some (g_genericError globalConfig))
       | None => genericError c
       end
       match g_errorHandler globalConfig with
       | Some handler => handler error
       | None => Some (g_genericError globalConfig)
       end)
    (Some (g_genericError globalConfig)).

Definition failed (error : Err) (c : RxCacheItem) : RxCacheItem :=
  let c1 := emit hasError_slot (fun _ => false) true
              (emit error_slot (fun _ => None) (error_text c error) c) in
  let c2 := if defined (construct c)
            then emit loading_slot (fun _ => false) false
                   (emit loaded_slot has_value false c1)
            else c1 in
  if defined (persist c)
  then emit saving_slot (fun _ => false) false
         (emit saved_slot (fun _ => false) false c2)
  else c2.

Definition updated (value : option T) (c : RxCacheItem) : RxCacheItem :=
  quiet_next loading_slot false
    (quiet_next loaded_slot true
       (quiet_next error_slot None
          (quiet_next hasError_slot false
             (set_instance_S (BehaviorSubject.next value (instance_S c)) c)))).

Definition reset_cell (item : option T) (c : RxCacheItem) : RxCacheItem :=
  let c' := quiet_next error_slot None
              (quiet_next hasError_slot false
                 (quiet_next loading_slot false
                    (quiet_next loaded_slot false c))) in
  set_instance_S (BehaviorSubject.next item (instance_S c')) c'.

Definition finished_cell (c : RxCacheItem) : RxCacheItem :=
  quiet_complete hasError_slot
    (quiet_complete error_slot
       (quiet_complete loaded_slot
          (quiet_complete loading_slot
             (set_instance_S (BehaviorSubject.complete (instance_S c)) c)))).

Definition merged (config : RxCacheItemConfig) (c : RxCacheItem) : RxCacheItem :=
  set_errorHandler (js_or_obj (cfg_errorHandler config) (errorHandler c))
    (set_saved (js_or_obj (cfg_saved config) (saved c))
       (set_persist (js_or_obj (cfg_persist config) (persist c))
          (set_construct (js_or_obj (cfg_construct config) (construct c))
             (set_genericError
                (js_or (cfg_genericError config) (genericError c)) c)))).

Definition configured (config : RxCacheItemConfig) (w : World) : World :=
  let w1 :=
    if defined (cfg_initialValue config) && negb (has_value (this w))
    then on_this
           (fun c => quiet_next loaded_slot true
                       (set_instance_S
                          (BehaviorSubject.next (cfg_initialValue config)
                             (instance_S c)) c)) w
    else w in
  let w2 := on_this (merged config) w1 in
  let w3 := if defined (cfg_construct config) then unsubscribed w2 else w2 in
  if cfg_load config then refreshed w3 else w3.

Definition save_begun (saved_arg : option Callback) (w : World) : World :=
  match persist (this w) with
  | Some p =>
      mkWorld (save_flags (this w)) (loads w)
        (saves w ++ [mkSaveSubscription p
                       (BehaviorSubject.getValue (instance_S (this w)))
                       saved_arg false])
        (called w)
  | None => w
  end.

(** What the getter of a slot followed by [getValue()] reads. *)
Definition current {A} (s : Slot A) (init : RxCacheItem -> A) (c : RxCacheItem) : A :=
  BehaviorSubject.getValue (default (BehaviorSubject.new (init c)) (slot_get s c)).

Definition value_read (w : World) : World :=
  match construct (this w) with
  | Some _ =>
      let w' := on_this (materialise loaded_slot has_value) w in
      if current loaded_slot has_value (this w) then w' else refreshed w'
  | None => w
  end.

(** The [next] callback of a load on the cell, its subjects existing. *)
Definition delivered (item : T) (c : RxCacheItem) : RxCacheItem :=
  quiet_next loading_slot false
    (quiet_next loaded_slot true
       (set_instance_S (BehaviorSubject.next (Some item) (instance_S c)) c)).

Definition load_closed (i : nat) (w : World) : World :=
  mkWorld (this w) (alter close i (loads w)) (saves w) (called w).

Definition save_closed (j : nat) (w : World) : World :=
  mkWorld (this w) (loads w) (alter finalise j (saves w)) (called w).

(** The calls a successful save makes: the caller's callback, then the cell's. *)
Definition save_calls (s : SaveSubscription T Sink Callback) (val : Ack)
    (c : RxCacheItem) : list (Callback * Ack) :=
  match onSaved s with Some cb => [(cb, val)] | None => [] end
  ++ match saved c with Some cb => [(cb, val)] | None => [] end.

Definition save_delivered (j : nat) (s : SaveSubscription T Sink Callback)
    (val : Ack) (w : World) : World :=
  mkWorld
    (quiet_next saving_slot false (quiet_next saved_slot true (this w)))
    (loads w) (alter finalise j (saves w))
    (called w ++ save_calls s val (this w)).

(** ** Histories of a cell

    What can happen to a cell: a call of one of its public members (the
    getters included, since they create subjects), or rxjs running one of the
    callbacks of a subscription. *)

Inductive Call : Type :=
| Configure (config : RxCacheItemConfig)
| GetValue
| GetLoaded
| GetLoading
| GetSaving
| GetSaved
| GetHasError
| GetError
| Update (value : option T)
| Save (saved_arg : option Callback)
| Reload (construct_arg : Source)
| Reset (item : option T)
| Unsubscribe
| Finish
| Refresh
| LoadNext (i : nat) (item : T)
| LoadError (i : nat) (error : Err)
| LoadComplete (i : nat)
| SaveNext (j : nat) (val : Ack)
| SaveError (j : nat) (error : Err)
| SaveComplete (j : nat).

Definition exec (c : Call) : M unit :=
  match c with
  | Configure config => configure config
  | GetValue => value_S
  | GetLoaded => do _ <- loaded_S; ret tt
  | GetLoading => do _ <- loading_S; ret tt
  | GetSaving => do _ <- saving_S; ret tt
  | GetSaved => do _ <- saved_S; ret tt
  | GetHasError => do _ <- hasError_S; ret tt
  | GetError => do _ <- error_S; ret tt
  | Update value => update value
  | Save saved_arg => save saved_arg
  | Reload construct_arg => reload construct_arg
  | Reset item => reset item
  | Unsubscribe => unsubscribe
  | Finish => finish
  | Refresh => refresh
  | LoadNext i item => load_next i item
  | LoadError i error => load_error i error
  | LoadComplete i => load_complete i
  | SaveNext j val => save_next j val
  | SaveError j error => save_error j error
  | SaveComplete j => save_complete j
  end.

(** The world after a history; a caller that catches an exception goes on
    with the cell as the failed call left it. *)
Fixpoint run (calls : list Call) (w : World) : World :=
  match calls with
  | [] => w
  | c :: calls' => run calls' (world_of (exec c w))
  end.

(** The cell built by [new RxCacheItem(config)] after the history [calls]. *)
Definition history (config : RxCacheItemConfig) (calls : list Call) : World :=
  run calls (world_of (new config)).

(** ** Observable state

    What a reader gets from the public getter of a flag followed by
    [getValue()], at the moment of reading; the getter creates the subject
    when it does not exist yet.  The value is read from [instance$] itself
    (the getter [value$] may start a load). *)

Definition peek {A} (m : M A) (w : World) : option A :=
  match m w with
  | Ok a _ => Some a
  | Throw _ => None
  end.

Definition obs_value (w : World) : option T :=
  BehaviorSubject.getValue (instance_S (this w)).

Definition obs_loaded : World -> option bool :=
  peek (do r <- loaded_S; slot_getValue r).

Definition obs_loading : World -> option bool :=
  peek (do r <- loading_S; slot_getValue r).

Definition obs_saving : World -> option bool :=
  peek (do r <- saving_S; slot_getValue r).

Definition obs_saved : World -> option bool :=
  peek (do r <- saved_S; slot_getValue r).

Definition obs_hasError : World -> option bool :=
  peek (do r <- hasError_S; slot_getValue r).

Definition obs_errorMessage : World -> option JsString :=
  peek (do r <- error_S; slot_getValue r).

(** The subscription of the [i]-th load, or of the [j]-th save, is open:
    rxjs still delivers its notifications. *)
Definition load_open (w : World) (i : nat) : bool :=
  match loads w !! i with
  | Some s => negb (closed s)
  | None => false
  end.

Definition save_open (w : World) (j : nat) : bool :=
  match saves w !! j with
  | Some s => negb (finalised s)
  | None => false
  end.

(** What a reader finds after a failure that hit the cell in [before]. *)
Definition failure_state (before after : World) : Prop :=
  obs_hasError after = Some true /\
  (is_Some (construct (this before)) ->
   obs_loaded after = Some false /\ obs_loading after = Some false) /\
  (is_Some (persist (this before)) ->
   obs_saved after = Some false /\ obs_saving after = Some false).

(** A subject is completed. *)
Definition completed {A} (o : option (BehaviorSubject A)) : bool :=
  match o with
  | Some b => isStopped b
  | None => false
  end.

(** ** Invariants of the worlds a cell can be in *)

(** Every load whose subscription is still open is the one the cell holds,
    and the one it holds is the load started last. *)
Definition loads_wf (w : World) : Prop :=
  (forall i s, loads w !! i = Some s -> closed s = false ->
               subscription (this w) = Some i) /\
  (forall i, subscription (this w) = Some i -> S i = length (loads w)).

(** The subjects the callbacks reach through the private fields exist once a
    load, or a save, has been started. *)
Definition slots_wf (w : World) : Prop :=
  (loads w <> [] ->
   is_Some (_loaded_S (this w)) /\ is_Some (_loading_S (this w))) /\
  (saves w <> [] ->
   is_Some (_saved_S (this w)) /\ is_Some (_saving_S (this w))).

(** No load is pending: every subscription of a load is closed. *)
Definition quiescent (w : World) : Prop := forall i, load_open w i = false.

(** A subject that exists in [c] exists in [c']. *)
Definition slots_le (c c' : RxCacheItem) : Prop :=
  (is_Some (_loaded_S c) -> is_Some (_loaded_S c')) /\
  (is_Some (_loading_S c) -> is_Some (_loading_S c')) /\
  (is_Some (_saved_S c) -> is_Some (_saved_S c')) /\
  (is_Some (_saving_S c) -> is_Some (_saving_S c')).

(** [hasError$] holding [true] comes with an [error$] holding a string. *)
Definition error_wf (c : RxCacheItem) : Prop :=
  forall h, _hasError_S c = Some h -> _value h = true ->
            exists e m, _error_S c = Some e /\ _value e = Some m.

(** How one step may move the error state a reader sees: not at all, to
    an error, or to no error and no message. *)
Definition error_seen (c : RxCacheItem) : bool * JsString :=
  (current hasError_slot (fun _ => false) c, current error_slot (fun _ => None) c).

Definition error_step (c c' : RxCacheItem) : Prop :=
  error_seen c' = error_seen c \/
  fst (error_seen c') = true \/
  error_seen c' = (false, None).

(** A change of the cell that leaves the held subscription alone, removes no
    subject and keeps [error_wf]. *)
Record tame (f : RxCacheItem -> RxCacheItem) : Prop := mkTame {
  tame_subscription : forall c, subscription (f c) = subscription c;
  tame_slots : forall c, slots_le c (f c);
  tame_error : forall c, error_wf c -> error_wf (f c)
}.

Definition wf (w : World) : Prop :=
  loads_wf w /\ slots_wf w /\ error_wf (this w).

(** ** The error message, as the specification words it

    Used only to compare with what [runErrorHandler] computes. *)

(** A message that is absent or empty counts for nothing. *)
Definition non_empty (s : JsString) : bool :=
  match s with
  | Some (String _ _) => true
  | Some EmptyString => false
  | None => false
  end.

Definition or_else (a b : JsString) : JsString :=
  if non_empty a then a else b.

(** Step 1: the global fallback message. *)
Definition spec_global_fallback (error : Err) : JsString :=
  match g_errorHandler globalConfig with
  | Some handler => handler error
  | None => Some (g_genericError globalConfig)
  end.

(** Step 2: the cell's own message. *)
Definition spec_own_message (c : RxCacheItem) (error : Err) : JsString :=
  match errorHandler c with
  | Some handler =>
      or_else (or_else (handler error) (genericError c))
              (Some (g_genericError globalConfig))
  | None => genericError c
  end.

(** Step 3: the final message. *)
Definition spec_errorMessage (c : RxCacheItem) (error : Err) : JsString :=
  or_else (spec_own_message c error)
          (or_else (spec_global_fallback error)
                   (Some (g_genericError globalConfig))).

(** ** A call as a function on worlds

    What each call does to a world in which the subjects its callbacks
    reach exist ([slots_wf]); [exec_after] below shows that [exec] returns
    it. *)

Definition after_call (call : Call) (w : World) : World :=
  match call with
  | Configure config => configured config w
  | GetValue => value_read w
  | GetLoaded => on_this (materialise loaded_slot has_value) w
  | GetLoading => on_this (materialise loading_slot (fun _ => false)) w
  | GetSaving => on_this (materialise saving_slot (fun _ => false)) w
  | GetSaved => on_this (materialise saved_slot (fun _ => false)) w
  | GetHasError => on_this (materialise hasError_slot (fun _ => false)) w
  | GetError => on_this (materialise error_slot (fun _ => None)) w
  | Update value => on_this (updated value) w
  | Save saved_arg => save_begun saved_arg w
  | Reload construct_arg => reloaded construct_arg w
  | Reset item => unsubscribed (on_this (reset_cell item) w)
  | Unsubscribe => unsubscribed w
  | Finish => unsubscribed (on_this finished_cell w)
  | Refresh => refreshed w
  | LoadNext i item => if load_open w i then on_this (delivered item) w else w
  | LoadError i error =>
      if load_open w i then load_closed i (on_this (failed error) w) else w
  | LoadComplete i => if load_open w i then load_closed i w else w
  | SaveNext j val =>
      match saves w !! j with
      | Some s => if finalised s then w else save_delivered j s val w
      | None => w
      end
  | SaveError j error =>
      if save_open w j then save_closed j (on_this (failed error) w) else w
  | SaveComplete j => if save_open w j then save_closed j w else w
  end.

(** Everything a reader can observe of the cell at once. *)
Definition observation (w : World)
  : option T * option bool * option bool * option bool * option bool
    * option bool * option JsString :=
  (obs_value w, obs_loaded w, obs_loading w, obs_saving w, obs_saved w,
   obs_hasError w, obs_errorMessage w).

(** The calls that only read a flag. *)
Definition is_flag_getter (call : Call) : bool :=
  match call with
  | GetLoaded | GetLoading | GetSaving | GetSaved | GetHasError | GetError => true
  | _ => false
  end.

(** The callbacks of the save subscriptions. *)
Definition is_save_event (call : Call) : bool :=
  match call with
  | SaveNext _ _ | SaveError _ _ | SaveComplete _ => true
  | _ => false
  end.

(** The calls that leave the load in flight alone: flag getters, [update],
    [save], a value delivered by a load, and the callbacks of saves. *)
Definition keeps_load (call : Call) : bool :=
  match call with
  | GetLoaded | GetLoading | GetSaving | GetSaved | GetHasError | GetError
  | Update _ | Save _ | LoadNext _ _
  | SaveNext _ _ | SaveError _ _ | SaveComplete _ => true
  | _ => false
  end.

End RxCacheItem.

Arguments RxCacheItemConfig : clear implicits.
Arguments GlobalConfig : clear implicits.
Arguments RxCacheItem : clear implicits.
Arguments World : clear implicits.
Arguments Call : clear implicits.

Arguments Ok {T Err Ack Source Sink Callback A} a w.
Arguments Throw {T Err Ack Source Sink Callback A} w.

Notation "'do' x <- m ; k" := (bind m (fun x => k))
  (at level 10, x name, m at level 100, k at level 200,
   format "'[v' 'do'  x  <-  m ; '/' k ']'").

(** * Concrete cells

    Cells of numbers whose sources, sinks and callbacks are named by
    numbers and whose errors are strings. *)

Module Example.

Definition Config : Type := RxCacheItemConfig nat string nat nat nat.
Definition World : Type := World nat string nat nat nat nat.
Definition Call : Type := Call nat string nat nat nat nat.

(** The global policy of the scenario: no handler, the generic text. *)
Definition policy : GlobalConfig string :=
  mkGlobalConfig None "Something went wrong".

(** [{ id: 'cell' }] *)
Definition plain : Config :=
  mkConfig "cell" None None None None None None false.

(** [{ id: 'cell', construct: source0 }] *)
Definition with_source : Config :=
  mkConfig "cell" None None (Some 0) None None None false.

(** [{ id: 'cell', genericError: 'old', persist: sink0 }] *)
Definition with_sink : Config :=
  mkConfig "cell" None (Some "old") None (Some 0) None None false.

(** [{ id: 'cell', construct: source0, persist: sink0 }] *)
Definition with_both : Config :=
  mkConfig "cell" None None (Some 0) (Some 0) None None false.

(** [{ id: 'cell', genericError: '' }] *)
Definition empty_text : Config :=
  mkConfig "cell" None (Some "") None None None None false.

Definition after (config : Config) (calls : list Call) : World :=
  history policy config calls.

(** A load and a save both in flight. *)
Definition busy : World := after with_both [Refresh; Save None].

(** A second load started while the first is in flight. *)
Abbreviation superseded :=
  (history (Ack:=nat) policy with_source [Refresh; Refresh]).

(** A load has failed with ["net-down"]. *)
Abbreviation net_down :=
  (history (Ack:=nat) policy with_source [Refresh; LoadError 0 "net-down"]).

(** A save was started, then the cell was finished. *)
Definition saved_then_finished : World := after with_sink [Save None; Finish].

(** [{ id: 'cell', initialValue: 5 }] *)
Definition seeded : Config :=
  mkConfig "cell" (Some 5) None None None None None false.

(** [{ id: 'cell', construct: source1, load: true }] *)
Definition load_now : Config :=
  mkConfig "cell" None None (Some 1) None None None true.

(** [{ id: 'cell', construct: source0, errorHandler: e => 'cell: ' + e }] *)
Definition with_handler : Config :=
  mkConfig "cell" None None (Some 0) None None
    (Some (fun e => Some ("cell: " ++ e))) false.

(** A global policy with a handler. *)
Definition loud_policy : GlobalConfig string :=
  mkGlobalConfig (Some (fun e => Some ("global: " ++ e))) "Something went wrong".

(** One load in flight. *)
Abbreviation one_load := (history (Ack:=nat) policy with_source [Refresh]).

(** One save in flight, started with the caller's callback 5. *)
Abbreviation one_save := (history (Ack:=nat) policy with_sink [Save (Some 5)]).

(** A finished cell. *)
Abbreviation finished := (history (Ack:=nat) policy plain [Finish]).

(** A cell with a source and a value. *)
Definition loaded_cell : World := after with_source [Update (Some 1)].

(** A cell with a source and no value. *)
Definition unloaded_cell : World := after with_source [].

(** A cell with neither source nor sink. *)
Definition bare : World := after plain [].

(** A cell with a sink. *)
Definition sink_cell : World := after with_sink [].

(** A cell with its own error handler. *)
Definition handler_cell : World := after with_handler [].

End Example.

(** * Properties *)

Section Properties.

Context {T Err Ack Source Sink Callback : Type}.
Variable globalConfig : GlobalConfig Err.

Local Abbreviation Config := (RxCacheItemConfig T Err Source Sink Callback).
Local Abbreviation Cell := (RxCacheItem T Err Source Sink Callback).
Local Abbreviation World := (World T Err Ack Source Sink Callback).
Local Abbreviation Call := (Call T Err Ack Source Sink Callback).
Local Abbreviation M := (@M T Err Ack Source Sink Callback).
Local Abbreviation tame := (@tame T Err Source Sink Callback).

Implicit Types (w : World) (c : Cell) (config : Config) (calls : list Call).

(** ** The monad *)

Lemma bind_eq {A B} (m : M A) (k : A -> M B) w a w' :
  m w = Ok a w' -> bind m k w = k a w'.
Proof. unfold bind. intros ->. reflexivity. Qed.

Lemma bind_assoc {A B C} (m : M A) (k : A -> M B) (k' : B -> M C) w :
  bind (bind m k) k' w = bind m (fun a => bind (k a) k') w.
Proof. unfold bind. destruct (m w); reflexivity. Qed.

Lemma on_this_id w : on_this (fun c => c) w = w.
Proof. destruct w. reflexivity. Qed.

(** ** Slots behave as fields *)

Lemma slot_get_set {A} (s : Slot A) x c : slot_get s (slot_set s x c) = x.
Proof. destruct s; reflexivity. Qed.

Lemma slot_set_get {A} (s : Slot A) c : slot_set s (slot_get s c) c = c.
Proof. destruct s, c; reflexivity. Qed.

Lemma getter_eq {A} (s : Slot A) init w :
  getter s init w = Ok s (on_this (materialise s init) w).
Proof.
  unfold getter, materialise, bind, read, modify, ret, on_this.
  destruct (slot_get s (this w)) eqn:E; simpl; [|reflexivity].
  rewrite <- E, slot_set_get. destruct w; reflexivity.
Qed.

Lemma getter_next {A} (s : Slot A) init v w :
  (do r <- getter s init; slot_next r v) w = Ok tt (on_this (emit s init v) w).
Proof.
  unfold getter, slot_next, emit, bind, read, modify, ret, on_this.
  destruct (slot_get s (this w)) eqn:E; simpl.
  - rewrite E. reflexivity.
  - rewrite slot_get_set. destruct s; reflexivity.
Qed.

Lemma slot_next_materialise {A} (s : Slot A) init v w :
  slot_next s v (on_this (materialise s init) w)
  = Ok tt (on_this (emit s init v) w).
Proof. rewrite <- getter_next. erewrite bind_eq by apply getter_eq. reflexivity. Qed.

Lemma getter_next_bind {A B} (s : Slot A) init v (k : M B) w :
  (do r <- getter s init; do _ <- slot_next r v; k) w
  = k (on_this (emit s init v) w).
Proof.
  rewrite <- (bind_eq (do r <- getter s init; slot_next r v) (fun _ => k) w tt
                (on_this (emit s init v) w) (getter_next s init v w)).
  unfold bind. destruct (getter s init w); reflexivity.
Qed.

Lemma next_eq {A} (s : Slot A) v w :
  next s v w = Ok tt (on_this (quiet_next s v) w).
Proof.
  unfold next, quiet_next, bind, read, modify, ret, on_this.
  destruct (slot_get s (this w)) eqn:E; simpl; [reflexivity|].
  rewrite <- E, slot_set_get. destruct w; reflexivity.
Qed.

Lemma complete_eq {A} (s : Slot A) w :
  complete s w = Ok tt (on_this (quiet_complete s) w).
Proof.
  unfold complete, quiet_complete, bind, read, modify, ret, on_this.
  destruct (slot_get s (this w)) eqn:E; simpl; [reflexivity|].
  rewrite <- E, slot_set_get. destruct w; reflexivity.
Qed.

Lemma unsubscribe_eq w : unsubscribe w = Ok tt (unsubscribed w).
Proof.
  unfold unsubscribe, unsubscribed, bind, read, close_load, modify, on_this, ret.
  destruct w as [c l sv cl]; simpl.
  destruct (subscription c) eqn:E; simpl; [reflexivity|].
  destruct c; simpl in *; subst; reflexivity.
Qed.

(** ** The methods compute their state transformers, and return *)

Ltac step :=
  first
    [ rewrite bind_assoc
    | rewrite getter_next_bind
    | rewrite getter_next
    | erewrite bind_eq
        by first [ apply next_eq | apply complete_eq | apply unsubscribe_eq
                 | apply slot_next_materialise | apply getter_eq
                 | reflexivity ] ].

Ltac getters :=
  unfold loaded_S, loading_S, saving_S, saved_S, hasError_S, error_S.

(** Reading a field of the cell through updates of other fields. *)
Ltac fields :=
  cbn [this loads saves called on_this materialise emit quiet_next
       quiet_complete slot_set slot_get
       set_genericError set_construct set_persist set_saved set_errorHandler
       set_subscription set_instance_S set_loaded_S set_loading_S
       set_saving_S set_saved_S set_hasError_S set_error_S
       id genericError construct persist saved errorHandler subscription
       instance_S _loaded_S _loading_S _saving_S _saved_S _hasError_S
       _error_S has_value].

Lemma update_eq value w : update value w = Ok tt (on_this (updated value) w).
Proof. unfold update. repeat step. rewrite next_eq. reflexivity. Qed.

Lemma reset_eq item w :
  reset item w = Ok tt (unsubscribed (on_this (reset_cell item) w)).
Proof. unfold reset. repeat step. rewrite unsubscribe_eq. reflexivity. Qed.

Lemma finish_eq w : finish w = Ok tt (unsubscribed (on_this finished_cell w)).
Proof. unfold finish. repeat step. rewrite unsubscribe_eq. reflexivity. Qed.

Lemma refresh_eq w : refresh w = Ok tt (refreshed w).
Proof.
  unfold refresh, refreshed. getters. step.
  destruct (construct (this w)); [|reflexivity].
  repeat step. reflexivity.
Qed.

Lemma reload_eq f w : reload f w = Ok tt (reloaded f w).
Proof.
  unfold reload, reloaded. getters. repeat step.
  destruct w as [c l sv cl]; destruct c; reflexivity.
Qed.

Lemma save_eq saved_arg w : save saved_arg w = Ok tt (save_begun saved_arg w).
Proof.
  unfold save, save_begun. getters. step.
  destruct (persist (this w)); [|reflexivity].
  repeat step. reflexivity.
Qed.

Lemma generateErrorMessage_eq error w handler :
  errorHandler (this w) = Some handler ->
  generateErrorMessage globalConfig error w
  = Ok (js_or (js_or (handler error) (genericError (this w)))
              (Some (g_genericError globalConfig))) w.
Proof.
  intros E. unfold generateErrorMessage. repeat step. rewrite E. reflexivity.
Qed.

Lemma when_eq (b : bool) (m : M unit) w w1 :
  m w = Ok tt w1 -> when b m w = Ok tt (if b then w1 else w).
Proof. intros H. destruct b; cbn [when]; [exact H | reflexivity]. Qed.

Lemma own_message_eq error w :
  (if defined (errorHandler (this w))
   then generateErrorMessage globalConfig error
   else read genericError) w
  = Ok match errorHandler (this w) with
       | Some handler =>
           js_or (js_or (handler error) (genericError (this w)))
                 (Some (g_genericError globalConfig))
       | None => genericError (this w)
       end w.
Proof.
  destruct (errorHandler (this w)) as [handler|] eqn:E; cbn [defined].
  - apply generateErrorMessage_eq, E.
  - reflexivity.
Qed.

Lemma runErrorHandler_eq error w :
  runErrorHandler globalConfig error w = Ok tt (on_this (failed globalConfig error) w).
Proof.
  unfold runErrorHandler. getters. cbv zeta.
  erewrite bind_eq by apply getter_eq.
  erewrite bind_eq by reflexivity. cbv beta.
  erewrite bind_eq by apply own_message_eq.
  erewrite bind_eq by apply slot_next_materialise.
  rewrite getter_next_bind.
  erewrite bind_eq by reflexivity.
  erewrite bind_eq
    by (apply when_eq; rewrite getter_next_bind; apply getter_next).
  erewrite bind_eq by reflexivity.
  erewrite when_eq by (rewrite getter_next_bind; apply getter_next).
  destruct w as [[i ge co pe sa eh su ins lo li sg sd he er] l sv cl].
  unfold failed, error_text, on_this;
    cbn [this loads saves called construct persist errorHandler genericError
         emit slot_set slot_get set_error_S set_hasError_S set_loaded_S
         set_loading_S set_saved_S set_saving_S defined].
  destruct co, pe; reflexivity.
Qed.



Lemma slot_getValue_materialise {A} (s : Slot A) init w :
  slot_getValue s (on_this (materialise s init) w)
  = Ok (current s init (this w)) (on_this (materialise s init) w).
Proof.
  unfold slot_getValue, materialise, current, bind, read, ret, on_this; simpl.
  rewrite slot_get_set. reflexivity.
Qed.

Lemma slot_next_eq {A} (s : Slot A) v w :
  is_Some (slot_get s (this w)) ->
  slot_next s v w = Ok tt (on_this (quiet_next s v) w).
Proof.
  intros [b E]. rewrite <- next_eq.
  unfold slot_next, next, bind, read. rewrite E. reflexivity.
Qed.

Lemma value_S_eq w : value_S w = Ok tt (value_read w).
Proof.
  unfold value_S, value_read. getters. step.
  destruct (construct (this w)); [|reflexivity].
  step. erewrite bind_eq by apply slot_getValue_materialise.
  destruct (current loaded_slot has_value (this w)); cbn [negb when].
  - reflexivity.
  - apply refresh_eq.
Qed.

Lemma configure_eq config w : configure config w = Ok tt (configured config w).
Proof.
  destruct config as [ci civ cge cco cpe csa ceh clo].
  unfold configure, configured, merged.
  cbn [cfg_initialValue cfg_genericError cfg_construct cfg_persist cfg_saved
       cfg_errorHandler cfg_load].
  cbv zeta. step.
  destruct (defined civ && negb (has_value (this w)));
    cbn [when]; repeat step;
    destruct cco; cbn [defined when]; repeat step;
    destruct clo; cbn [when];
    first [ rewrite refresh_eq; reflexivity | reflexivity ].
Qed.

(** ** Reading the observable state *)

Lemma peek_getter {A} (s : Slot A) init w :
  peek (do r <- getter s init; slot_getValue r) w = Some (current s init (this w)).
Proof.
  unfold peek. erewrite bind_eq by apply getter_eq.
  rewrite slot_getValue_materialise. reflexivity.
Qed.

Lemma obs_loaded_eq w :
  obs_loaded w = Some (current loaded_slot has_value (this w)).
Proof. apply peek_getter. Qed.

Lemma obs_loading_eq w :
  obs_loading w = Some (current loading_slot (fun _ => false) (this w)).
Proof. apply peek_getter. Qed.

Lemma obs_saving_eq w :
  obs_saving w = Some (current saving_slot (fun _ => false) (this w)).
Proof. apply peek_getter. Qed.

Lemma obs_saved_eq w :
  obs_saved w = Some (current saved_slot (fun _ => false) (this w)).
Proof. apply peek_getter. Qed.

Lemma obs_hasError_eq w :
  obs_hasError w = Some (current hasError_slot (fun _ => false) (this w)).
Proof. apply peek_getter. Qed.

Lemma obs_errorMessage_eq w :
  obs_errorMessage w = Some (current error_slot (fun _ => None) (this w)).
Proof. apply peek_getter. Qed.

Ltac observe :=
  rewrite ?obs_loaded_eq, ?obs_loading_eq, ?obs_saving_eq, ?obs_saved_eq,
    ?obs_hasError_eq, ?obs_errorMessage_eq.

(** ** [update] *)

(** X23. After [update(v)] with a present value [v] (the argument is not
    [undefined]), whatever the state before and whichever subjects exist, a
    reader finds loaded=true, loading=false, hasError=false, no error
    message and the value [v]; [saving$] and [saved$] are left as they
    were.  The call returns. *)
Theorem update_observable (v : T) w :
  returns (update (Some v) w) = true /\
  obs_loaded (world_of (update (Some v) w)) = Some true /\
  obs_loading (world_of (update (Some v) w)) = Some false /\
  obs_hasError (world_of (update (Some v) w)) = Some false /\
  obs_errorMessage (world_of (update (Some v) w)) = Some None /\
  obs_value (world_of (update (Some v) w)) = Some v /\
  _saving_S (this (world_of (update (Some v) w))) = _saving_S (this w) /\
  _saved_S (this (world_of (update (Some v) w))) = _saved_S (this w) /\
  obs_saving (world_of (update (Some v) w)) = obs_saving w /\
  obs_saved (world_of (update (Some v) w)) = obs_saved w.
Proof.
  rewrite update_eq. cbn [returns world_of]. observe.
  destruct w as [[i ge co pe sa eh su ins lo li sg sd he er] l sv cl].
  destruct lo, li, he, er; repeat split; reflexivity.
Qed.

(** ** The callbacks *)

Lemma load_next_closed i item w :
  load_open w i = false -> load_next i item w = Ok tt w.
Proof.
  unfold load_open, load_next.
  destruct (loads w !! i) as [s|]; [destruct (closed s)|]; easy.
Qed.

Lemma load_error_closed i error w :
  load_open w i = false -> load_error globalConfig i error w = Ok tt w.
Proof.
  unfold load_open, load_error.
  destruct (loads w !! i) as [s|]; [destruct (closed s)|]; easy.
Qed.

Lemma load_complete_closed i w :
  load_open w i = false -> load_complete i w = Ok tt w.
Proof.
  unfold load_open, load_complete.
  destruct (loads w !! i) as [s|]; [destruct (closed s)|]; easy.
Qed.

Lemma load_next_open i item w :
  load_open w i = true ->
  is_Some (_loaded_S (this w)) -> is_Some (_loading_S (this w)) ->
  load_next i item w = Ok tt (on_this (delivered item) w).
Proof.
  unfold load_open, load_next. intros O Hl Hg.
  destruct (loads w !! i) as [s|]; [destruct (closed s)|]; try easy.
  step. erewrite bind_eq by (apply slot_next_eq; exact Hl).
  rewrite slot_next_eq by exact Hg. reflexivity.
Qed.

Lemma load_error_open i error w :
  load_open w i = true ->
  load_error globalConfig i error w
  = Ok tt (load_closed i (on_this (failed globalConfig error) w)).
Proof.
  unfold load_open, load_error. intros O.
  destruct (loads w !! i) as [s|]; [destruct (closed s)|]; try easy.
  erewrite bind_eq by apply runErrorHandler_eq. reflexivity.
Qed.

Lemma load_complete_open i w :
  load_open w i = true -> load_complete i w = Ok tt (load_closed i w).
Proof.
  unfold load_open, load_complete. intros O.
  destruct (loads w !! i) as [s|]; [destruct (closed s)|]; easy.
Qed.

Lemma save_next_closed j val w :
  save_open w j = false -> save_next j val w = Ok tt w.
Proof.
  unfold save_open, save_next.
  destruct (saves w !! j) as [s|]; [destruct (finalised s)|]; easy.
Qed.

Lemma save_error_closed j error w :
  save_open w j = false -> save_error globalConfig j error w = Ok tt w.
Proof.
  unfold save_open, save_error.
  destruct (saves w !! j) as [s|]; [destruct (finalised s)|]; easy.
Qed.

Lemma save_complete_closed j w :
  save_open w j = false -> save_complete j w = Ok tt w.
Proof.
  unfold save_open, save_complete.
  destruct (saves w !! j) as [s|]; [destruct (finalised s)|]; easy.
Qed.

Lemma save_next_open j s val w :
  saves w !! j = Some s -> finalised s = false ->
  is_Some (_saved_S (this w)) -> is_Some (_saving_S (this w)) ->
  save_next j val w = Ok tt (save_delivered j s val w).
Proof.
  unfold save_next, save_delivered, save_calls. intros E F Hd Hg. rewrite E, F.
  destruct w as [c l sv cl].
  destruct (onSaved s), (saved c) eqn:Es; repeat step; cbn [this]; rewrite Es;
    repeat step;
    (erewrite bind_eq by (apply slot_next_eq; exact Hd));
    (erewrite bind_eq
       by (apply slot_next_eq; destruct Hg as [b Hb]; exists b; exact Hb));
    unfold close_save, on_this; cbn [this loads saves called];
    rewrite <- ?app_assoc, ?app_nil_r; reflexivity.
Qed.

Lemma save_error_open j error w :
  save_open w j = true ->
  save_error globalConfig j error w
  = Ok tt (save_closed j (on_this (failed globalConfig error) w)).
Proof.
  unfold save_open, save_error. intros O.
  destruct (saves w !! j) as [s|]; [destruct (finalised s)|]; try easy.
  erewrite bind_eq by apply runErrorHandler_eq. reflexivity.
Qed.

Lemma save_complete_open j w :
  save_open w j = true -> save_complete j w = Ok tt (save_closed j w).
Proof.
  unfold save_open, save_complete. intros O.
  destruct (saves w !! j) as [s|]; [destruct (finalised s)|]; easy.
Qed.

(** ** The error-handling chain *)

Lemma truthy_non_empty (x : JsString) : truthy x = non_empty x.
Proof. destruct x as [[|a x]|]; reflexivity. Qed.

Lemma js_or_or_else (x y : JsString) : js_or x y = or_else x y.
Proof. unfold js_or, or_else. rewrite truthy_non_empty. reflexivity. Qed.

Lemma or_else_assoc (x y z : JsString) :
  or_else (or_else x y) z = or_else x (or_else y z).
Proof. unfold or_else. destruct (non_empty x) eqn:E; [rewrite E|]; reflexivity. Qed.

Lemma error_text_spec c error :
  error_text globalConfig c error = spec_errorMessage globalConfig c error.
Proof.
  unfold error_text, spec_errorMessage, spec_own_message, spec_global_fallback.
  rewrite !js_or_or_else, or_else_assoc.
  destruct (errorHandler c); rewrite ?js_or_or_else; reflexivity.
Qed.

(** The generic text of [globalConfig] being a string, the chain never ends
    on [undefined]. *)
Lemma error_text_present c error : is_Some (error_text globalConfig c error).
Proof.
  unfold error_text, js_or at 1.
  destruct (truthy _) eqn:E; [|eauto].
  destruct (js_or _ _); [eauto | discriminate].
Qed.

Lemma failed_error_S error c :
  current error_slot (fun _ => None) (failed globalConfig error c)
  = error_text globalConfig c error.
Proof.
  destruct c as [i ge co pe sa eh su ins lo li sg sd he er].
  unfold failed. destruct co, pe; reflexivity.
Qed.

Lemma failed_flags error w w' :
  this w' = failed globalConfig error (this w) -> failure_state w w'.
Proof.
  intros E. unfold failure_state. observe. rewrite E.
  destruct w as [[i ge co pe sa eh su ins lo li sg sd he er] l sv cl].
  cbn [this construct persist]. unfold failed. cbn [construct persist].
  split; [|split].
  - destruct co, pe; reflexivity.
  - intros [f ->]. destruct pe; split; reflexivity.
  - intros [p ->]. destruct co; split; reflexivity.
Qed.

(** C7. The message a failing load or save leaves in [error$] is the one the
    three-step chain of the specification picks: the cell's own message if
    it is not empty, else the global fallback, else the global generic text.
    With no handler and no generic text on the cell and no global handler,
    it is the global generic text, ["Something went wrong"] in the scenario. *)
Theorem errorMessage_chain w error i j :
  (load_open w i = true ->
   returns (load_error globalConfig i error w) = true /\
   obs_errorMessage (world_of (load_error globalConfig i error w))
   = Some (spec_errorMessage globalConfig (this w) error)) /\
  (save_open w j = true ->
   returns (save_error globalConfig j error w) = true /\
   obs_errorMessage (world_of (save_error globalConfig j error w))
   = Some (spec_errorMessage globalConfig (this w) error)) /\
  (load_open w i = true ->
   errorHandler (this w) = None -> genericError (this w) = None ->
   g_errorHandler globalConfig = None ->
   g_genericError globalConfig = "Something went wrong" ->
   obs_errorMessage (world_of (load_error globalConfig i error w))
   = Some (Some "Something went wrong")).
Proof.
  split; [|split].
  - intros O. rewrite load_error_open by exact O. split; [reflexivity|].
    cbn [world_of]. observe. cbn [this load_closed on_this].
    rewrite failed_error_S, error_text_spec. reflexivity.
  - intros O. rewrite save_error_open by exact O. split; [reflexivity|].
    cbn [world_of]. observe. cbn [this save_closed on_this].
    rewrite failed_error_S, error_text_spec. reflexivity.
  - intros O Eh Eg Gh Gg. rewrite load_error_open by exact O.
    cbn [world_of]. observe. cbn [this load_closed on_this].
    rewrite failed_error_S. unfold error_text. rewrite Eh, Eg, Gh, Gg.
    reflexivity.
Qed.

(** C8. After a failing load or save, hasError=true; when a source is
    configured loaded=false and loading=false, when a sink is configured
    saved=false and saving=false, and both when both are configured,
    whichever of the two operations failed. *)
Theorem failure_flags w error i j :
  (load_open w i = true ->
   returns (load_error globalConfig i error w) = true /\
   failure_state w (world_of (load_error globalConfig i error w))) /\
  (save_open w j = true ->
   returns (save_error globalConfig j error w) = true /\
   failure_state w (world_of (save_error globalConfig j error w))).
Proof.
  split; intros O.
  - rewrite load_error_open by exact O. split; [reflexivity|].
    apply (failed_flags error). reflexivity.
  - rewrite save_error_open by exact O. split; [reflexivity|].
    apply (failed_flags error). reflexivity.
Qed.

(** ** Changes of the cell that keep the invariants *)

Ltac tame_slots :=
  unfold slots_le; cbn;
  repeat match goal with
         | o : option (BehaviorSubject _) |- _ => destruct o
         end;
  cbn; repeat split; intros; eauto; exfalso; eapply is_Some_None; eassumption.

Ltac tame_error :=
  unfold error_wf; cbn; intros Hwf h Hh Hv;
  match goal with
  | he : option (BehaviorSubject bool), er : option (BehaviorSubject JsString)
    |- _ =>
      solve [ destruct he, er; cbn in *; simplify_eq; cbn in *;
              first [ discriminate
                    | solve [eauto]
                    | edestruct Hwf as (? & ? & ? & ?);
                      [ reflexivity | eassumption | ];
                      simplify_eq; cbn in *; eauto ] ]
  end.

Ltac tame_cell :=
  let c := fresh "c" in
  constructor; intros c;
  destruct c as [i ge co pe sa eh su ins lo li sg sd he er];
  [ try reflexivity | tame_slots | tame_error ].

Lemma tame_materialise_loaded : tame (materialise loaded_slot has_value).
Proof. tame_cell. Qed.

Lemma tame_materialise_loading : tame (materialise loading_slot (fun _ => false)).
Proof. tame_cell. Qed.

Lemma tame_materialise_saving : tame (materialise saving_slot (fun _ => false)).
Proof. tame_cell. Qed.

Lemma tame_materialise_saved : tame (materialise saved_slot (fun _ => false)).
Proof. tame_cell. Qed.

Lemma tame_materialise_hasError :
  tame (materialise hasError_slot (fun _ => false)).
Proof. tame_cell. Qed.

Lemma tame_materialise_error : tame (materialise error_slot (fun _ => None)).
Proof. tame_cell. Qed.

Lemma tame_updated value : tame (updated value).
Proof. tame_cell. Qed.

Lemma tame_reset_cell item : tame (reset_cell item).
Proof. tame_cell. Qed.

Lemma tame_finished_cell : tame finished_cell.
Proof. tame_cell. Qed.

Lemma tame_load_flags : tame load_flags.
Proof. tame_cell. Qed.

Lemma tame_save_flags : tame save_flags.
Proof. tame_cell. Qed.

Lemma tame_delivered item : tame (delivered item).
Proof. tame_cell. Qed.

Lemma tame_merged config : tame (merged config).
Proof. tame_cell. Qed.

Lemma tame_set_construct f : tame (set_construct f).
Proof. tame_cell. Qed.

Lemma tame_failed error : tame (failed globalConfig error).
Proof.
  constructor; intros c.
  - destruct c as [i ge co pe sa eh su ins lo li sg sd he er].
    unfold failed; cbn. destruct co, pe; reflexivity.
  - destruct c as [i ge co pe sa eh su ins lo li sg sd he er].
    unfold failed; cbn [construct persist defined]. destruct co, pe; tame_slots.
  - intros _ h _ _.
    destruct (error_text_present c error) as [m Hm].
    eexists _, m. split.
    + destruct c as [i ge co pe sa eh su ins lo li sg sd he er].
      unfold failed; cbn [construct persist defined]. destruct co, pe; reflexivity.
    + cbn. exact Hm.
Qed.

Lemma tame_initialised value :
  tame (fun c => quiet_next loaded_slot true
                   (set_instance_S (BehaviorSubject.next value (instance_S c)) c)).
Proof. tame_cell. Qed.

Lemma slots_le_refl c : slots_le c c.
Proof. unfold slots_le. tauto. Qed.

Lemma wf_on_this f w : tame f -> wf w -> wf (on_this f w).
Proof.
  intros [Hs Hl He] (Hloads & Hslots & Herr).
  destruct (Hl (this w)) as (L1 & L2 & L3 & L4).
  split; [|split].
  - unfold loads_wf, on_this in *; cbn [this loads]. rewrite Hs. exact Hloads.
  - unfold slots_wf, on_this in *; cbn [this loads saves].
    destruct Hslots as [Ha Hb]. split; intros H.
    + destruct (Ha H). auto.
    + destruct (Hb H). auto.
  - apply He, Herr.
Qed.

(** ** Subscriptions of loads *)

Lemma load_open_lookup w i :
  load_open w i = true <-> exists s, loads w !! i = Some s /\ closed s = false.
Proof.
  unfold load_open. destruct (loads w !! i) as [s|].
  - destruct (closed s) eqn:E; cbn; split; try easy.
    + intros (s' & [= <-] & E'). congruence.
    + eauto.
  - split; [easy | intros (s & [=] & _)].
Qed.

Lemma load_open_current w i :
  loads_wf w -> load_open w i = true -> subscription (this w) = Some i.
Proof.
  intros [Ha _] O. apply load_open_lookup in O as (s & E & C). eauto.
Qed.

Lemma load_open_closed w i k :
  load_open (load_closed i w) k = true -> k <> i /\ load_open w k = true.
Proof.
  unfold load_open, load_closed; cbn [loads].
  destruct (decide (k = i)) as [->|Hne].
  - rewrite list_lookup_alter_eq. destruct (loads w !! i); cbn; easy.
  - rewrite list_lookup_alter_ne by congruence. easy.
Qed.

Lemma quiescent_unsubscribed w : loads_wf w -> quiescent (unsubscribed w).
Proof.
  intros Hwf k. destruct (load_open (unsubscribed w) k) eqn:O; [|reflexivity].
  exfalso. unfold unsubscribed in O.
  destruct (subscription (this w)) as [i|] eqn:E.
  - apply (load_open_closed (mkWorld (set_subscription None (this w)) (loads w)
                               (saves w) (called w)) i k) in O as [Hne O].
    apply Hne. apply (load_open_current w k Hwf) in O. congruence.
  - apply (load_open_current w k Hwf) in O. congruence.
Qed.

Lemma loads_wf_quiescent w :
  quiescent w -> subscription (this w) = None -> loads_wf w.
Proof.
  intros Q E. split.
  - intros i s Hi Hc. specialize (Q i). unfold load_open in Q.
    rewrite Hi, Hc in Q. discriminate.
  - intros i Hi. congruence.
Qed.

Lemma length_unsubscribed w : length (loads (unsubscribed w)) = length (loads w).
Proof.
  unfold unsubscribed; cbn [loads].
  destruct (subscription (this w)); [apply length_alter | reflexivity].
Qed.

Lemma wf_unsubscribed w : wf w -> wf (unsubscribed w).
Proof.
  intros (Hloads & Hslots & Herr). split; [|split].
  - apply loads_wf_quiescent; [apply quiescent_unsubscribed, Hloads|].
    destruct w as [c l sv cl]; destruct c; reflexivity.
  - destruct Hslots as [Ha Hb]. split; intros H.
    + assert (loads w <> []) as H'.
      { intros E. apply H. apply length_zero_iff_nil.
        rewrite length_unsubscribed, E. reflexivity. }
      destruct (Ha H'). destruct w as [c l sv cl]; destruct c; auto.
    + destruct (Hb H). destruct w as [c l sv cl]; destruct c; auto.
  - destruct w as [c l sv cl]; destruct c; exact Herr.
Qed.

Lemma loads_wf_started f w : quiescent w -> loads_wf (started f w).
Proof.
  intros Q. split.
  - intros i s Hi Hc. unfold started in *; cbn [this loads subscription
      set_subscription] in *.
    destruct (decide (i < length (loads w))) as [Hlt|Hge].
    + rewrite lookup_app_l in Hi by exact Hlt.
      specialize (Q i). unfold load_open in Q. rewrite Hi, Hc in Q. discriminate.
    + apply lookup_lt_Some in Hi as Hi'. rewrite length_app in Hi'. cbn in Hi'.
      f_equal. lia.
  - intros i. unfold started; cbn [this loads subscription set_subscription].
    intros [= <-]. rewrite length_app. cbn. lia.
Qed.

Lemma quiescent_on_this f w : quiescent w -> quiescent (on_this f w).
Proof. intros Q i. exact (Q i). Qed.

Lemma wf_started f w :
  wf w -> quiescent w ->
  is_Some (_loaded_S (this w)) -> is_Some (_loading_S (this w)) ->
  wf (started f w).
Proof.
  intros (Hloads & Hslots & Herr) Q Hl Hg. split; [|split].
  - apply loads_wf_started, Q.
  - destruct Hslots as [Ha Hb]. destruct w as [c l sv cl]; destruct c.
    split; intros H; [split; assumption | exact (Hb H)].
  - destruct w as [c l sv cl]; destruct c; exact Herr.
Qed.

Lemma wf_load_closed i w : wf w -> wf (load_closed i w).
Proof.
  intros (Hloads & Hslots & Herr). split; [|split].
  - destruct Hloads as [Ha Hb]. split.
    + intros k s Hk Hc.
      assert (load_open (load_closed i w) k = true) as O.
      { apply load_open_lookup. eauto. }
      apply load_open_closed in O as [_ O].
      apply load_open_lookup in O as (s' & E & C). exact (Ha k s' E C).
    + intros k Hk. unfold load_closed; cbn [loads]. rewrite length_alter.
      exact (Hb k Hk).
  - destruct Hslots as [Ha Hb]. split; intros H; [|exact (Hb H)].
    apply Ha. intros E. apply H. unfold load_closed; cbn [loads].
    rewrite E. reflexivity.
  - exact Herr.
Qed.

(** ** Subscriptions of saves *)

Lemma wf_ext w w' :
  wf w -> this w' = this w -> loads w' = loads w ->
  (saves w' <> [] -> saves w <> []) -> wf w'.
Proof.
  intros (Hloads & [Ha Hb] & Herr) Et El Hs. unfold wf, loads_wf, slots_wf.
  rewrite Et, El. repeat split; try apply Hloads; try exact Herr.
  - apply Ha. assumption.
  - apply Ha. assumption.
  - apply Hb, Hs. assumption.
  - apply Hb, Hs. assumption.
Qed.

Lemma alter_not_nil {A} (f : A -> A) j (l : list A) : alter f j l <> [] -> l <> [].
Proof. intros H ->. apply H. reflexivity. Qed.

Lemma wf_save_closed j w : wf w -> wf (save_closed j w).
Proof.
  intros H. apply (wf_ext w); try reflexivity; [exact H|].
  apply alter_not_nil.
Qed.

Lemma tame_save_delivered :
  tame (fun c => quiet_next saving_slot false (quiet_next saved_slot true c)).
Proof. tame_cell. Qed.

Lemma wf_save_delivered j s val w : wf w -> wf (save_delivered j s val w).
Proof.
  intros H.
  apply (wf_ext (on_this (fun c => quiet_next saving_slot false
                                     (quiet_next saved_slot true c)) w));
    try reflexivity.
  - apply wf_on_this; [apply tame_save_delivered | exact H].
  - apply alter_not_nil.
Qed.

Lemma wf_save_begun saved_arg w : wf w -> wf (save_begun saved_arg w).
Proof.
  intros H. unfold save_begun. destruct (persist (this w)) as [p|]; [|exact H].
  apply (wf_on_this _ _ tame_save_flags) in H as (Hloads & [Ha Hb] & Herr).
  split; [exact Hloads | split; [split|exact Herr]].
  - exact Ha.
  - intros _. destruct w as [c l sv cl]; destruct c.
    unfold save_flags; cbn. eauto.
Qed.

(** ** Starting a load *)

Lemma load_flags_slots c :
  is_Some (_loaded_S (load_flags c)) /\ is_Some (_loading_S (load_flags c)).
Proof. destruct c. unfold load_flags; cbn. eauto. Qed.

Lemma unsubscribed_this_slots w :
  _loaded_S (this (unsubscribed w)) = _loaded_S (this w) /\
  _loading_S (this (unsubscribed w)) = _loading_S (this w).
Proof. destruct w as [c l sv cl]; destruct c. split; reflexivity. Qed.

Lemma wf_refreshed w : wf w -> wf (refreshed w).
Proof.
  intros H. unfold refreshed. destruct (construct (this w)) as [f|]; [|exact H].
  pose proof (wf_on_this _ _ tame_load_flags H) as H1.
  destruct (unsubscribed_this_slots (on_this load_flags w)) as [E1 E2].
  destruct (load_flags_slots (this w)) as [S1 S2].
  apply wf_started.
  - apply wf_unsubscribed, H1.
  - apply quiescent_unsubscribed, H1.
  - rewrite E1. exact S1.
  - rewrite E2. exact S2.
Qed.

Lemma wf_reloaded f w : wf w -> wf (reloaded f w).
Proof.
  intros H. unfold reloaded.
  pose proof (wf_on_this _ _ tame_load_flags H) as H1.
  destruct (unsubscribed_this_slots (on_this load_flags w)) as [E1 E2].
  destruct (load_flags_slots (this w)) as [S1 S2].
  apply wf_started.
  - apply wf_on_this; [apply tame_set_construct | apply wf_unsubscribed, H1].
  - apply quiescent_on_this, quiescent_unsubscribed, H1.
  - change (is_Some (_loaded_S (this (unsubscribed (on_this load_flags w))))).
    rewrite E1. exact S1.
  - change (is_Some (_loading_S (this (unsubscribed (on_this load_flags w))))).
    rewrite E2. exact S2.
Qed.

Lemma wf_value_read w : wf w -> wf (value_read w).
Proof.
  intros H. unfold value_read. destruct (construct (this w)); [|exact H].
  pose proof (wf_on_this _ _ tame_materialise_loaded H) as H1.
  destruct (current _ _ _); [exact H1 | apply wf_refreshed, H1].
Qed.

Lemma wf_configured config w : wf w -> wf (configured config w).
Proof.
  intros H. unfold configured. cbv zeta.
  set (w1 := if defined (cfg_initialValue config) && negb (has_value (this w))
             then _ else w).
  assert (wf w1) as H1.
  { subst w1. destruct (_ && _); [|exact H].
    apply wf_on_this; [apply tame_initialised | exact H]. }
  clearbody w1.
  pose proof (wf_on_this _ _ (tame_merged config) H1) as H2.
  set (w3 := if defined (cfg_construct config) then _ else _).
  assert (wf w3) as H3.
  { subst w3. destruct (defined _); [apply wf_unsubscribed|]; exact H2. }
  clearbody w3.
  destruct (cfg_load config); [apply wf_refreshed|]; exact H3.
Qed.

(** ** Every call keeps the invariants and returns *)

Lemma loads_not_nil w i : load_open w i = true -> loads w <> [].
Proof.
  intros O E. apply load_open_lookup in O as (s & Hs & _).
  rewrite E in Hs. discriminate.
Qed.

Lemma exec_wf (call : Call) w :
  wf w ->
  returns (exec globalConfig call w) = true /\
  wf (world_of (exec globalConfig call w)).
Proof.
  intros H. destruct call; cbn [exec].
  - rewrite configure_eq. split; [reflexivity | apply wf_configured, H].
  - rewrite value_S_eq. split; [reflexivity | apply wf_value_read, H].
  - unfold loaded_S. erewrite bind_eq by apply getter_eq.
    split; [reflexivity | apply wf_on_this; [apply tame_materialise_loaded | exact H]].
  - unfold loading_S. erewrite bind_eq by apply getter_eq.
    split; [reflexivity | apply wf_on_this; [apply tame_materialise_loading | exact H]].
  - unfold saving_S. erewrite bind_eq by apply getter_eq.
    split; [reflexivity | apply wf_on_this; [apply tame_materialise_saving | exact H]].
  - unfold saved_S. erewrite bind_eq by apply getter_eq.
    split; [reflexivity | apply wf_on_this; [apply tame_materialise_saved | exact H]].
  - unfold hasError_S. erewrite bind_eq by apply getter_eq.
    split; [reflexivity | apply wf_on_this; [apply tame_materialise_hasError | exact H]].
  - unfold error_S. erewrite bind_eq by apply getter_eq.
    split; [reflexivity | apply wf_on_this; [apply tame_materialise_error | exact H]].
  - rewrite update_eq.
    split; [reflexivity | apply wf_on_this; [apply tame_updated | exact H]].
  - rewrite save_eq. split; [reflexivity | apply wf_save_begun, H].
  - rewrite reload_eq. split; [reflexivity | apply wf_reloaded, H].
  - rewrite reset_eq. split; [reflexivity|].
    apply wf_unsubscribed, wf_on_this; [apply tame_reset_cell | exact H].
  - rewrite unsubscribe_eq. split; [reflexivity | apply wf_unsubscribed, H].
  - rewrite finish_eq. split; [reflexivity|].
    apply wf_unsubscribed, wf_on_this; [apply tame_finished_cell | exact H].
  - rewrite refresh_eq. split; [reflexivity | apply wf_refreshed, H].
  - destruct (load_open w i) eqn:O.
    + pose proof H as (_ & [Ha _] & _).
      destruct (Ha (loads_not_nil w i O)) as [Hl Hg].
      rewrite load_next_open by assumption. split; [reflexivity|].
      apply wf_on_this; [apply tame_delivered | exact H].
    + rewrite load_next_closed by exact O. split; [reflexivity | exact H].
  - destruct (load_open w i) eqn:O.
    + rewrite load_error_open by exact O. split; [reflexivity|].
      apply wf_load_closed, wf_on_this; [apply tame_failed | exact H].
    + rewrite load_error_closed by exact O. split; [reflexivity | exact H].
  - destruct (load_open w i) eqn:O.
    + rewrite load_complete_open by exact O.
      split; [reflexivity | apply wf_load_closed, H].
    + rewrite load_complete_closed by exact O. split; [reflexivity | exact H].
  - destruct (save_open w j) eqn:O.
    + unfold save_open in O. destruct (saves w !! j) as [s|] eqn:Es; [|easy].
      destruct (finalised s) eqn:F; [easy|].
      assert (saves w <> []) as Hne by (intros E; rewrite E in Es; easy).
      pose proof H as (_ & [_ Hb] & _). destruct (Hb Hne) as [Hd Hg].
      rewrite (save_next_open j s) by assumption.
      split; [reflexivity | apply wf_save_delivered, H].
    + rewrite save_next_closed by exact O. split; [reflexivity | exact H].
  - destruct (save_open w j) eqn:O.
    + rewrite save_error_open by exact O. split; [reflexivity|].
      apply wf_save_closed, wf_on_this; [apply tame_failed | exact H].
    + rewrite save_error_closed by exact O. split; [reflexivity | exact H].
  - destruct (save_open w j) eqn:O.
    + rewrite save_complete_open by exact O.
      split; [reflexivity | apply wf_save_closed, H].
    + rewrite save_complete_closed by exact O. split; [reflexivity | exact H].
Qed.

Lemma new_wf config :
  returns (new (Ack:=Ack) config) = true /\
  wf (world_of (new (Ack:=Ack) config)).
Proof.
  unfold new. rewrite configure_eq. split; [reflexivity|].
  apply wf_configured. repeat split; cbn; try easy.
Qed.

Lemma run_wf calls w : wf w -> wf (run globalConfig calls w).
Proof.
  revert w. induction calls as [|call calls IH]; intros w H; cbn [run].
  - exact H.
  - apply IH, exec_wf, H.
Qed.

Lemma history_wf config calls : wf (history globalConfig config calls).
Proof. apply run_wf, new_wf. Qed.

(** ** Superseded loads *)

Lemma stale_load_closed w i :
  loads_wf w -> S i <> length (loads w) -> load_open w i = false.
Proof.
  intros Hwf Hi. destruct (load_open w i) eqn:O; [|reflexivity].
  exfalso. apply Hi. apply Hwf. apply load_open_current; assumption.
Qed.

(** C1. In every world a cell can reach, a notification of a load that is
    not the load started last (a value, an error or the completion of its
    observable) leaves the whole world, and so the cell's state, as it is:
    only the most recently started load can still change the cell. *)
Theorem superseded_load_is_noop config calls i item error :
  S i <> length (loads (history globalConfig config calls)) ->
  load_next i item (history globalConfig config calls)
  = Ok tt (history globalConfig config calls) /\
  load_error globalConfig i error (history globalConfig config calls)
  = Ok tt (history globalConfig config calls) /\
  load_complete i (history globalConfig config calls)
  = Ok tt (history globalConfig config calls).
Proof.
  intros Hi.
  pose proof (history_wf config calls) as (Hloads & _).
  pose proof (stale_load_closed _ i Hloads Hi) as O.
  split; [|split].
  - apply load_next_closed, O.
  - apply load_error_closed, O.
  - apply load_complete_closed, O.
Qed.

(** ** The error state along a step *)

Lemma error_step_trans c c' c'' :
  error_step c c' -> error_step c' c'' -> error_step c c''.
Proof.
  unfold error_step. intros H1 [E|[E|E]]; [|tauto|tauto].
  rewrite E. exact H1.
Qed.

Lemma error_step_same c c' :
  _hasError_S c' = _hasError_S c -> _error_S c' = _error_S c -> error_step c c'.
Proof.
  intros E1 E2. left. unfold error_seen, current; cbn [slot_get].
  rewrite E1, E2. reflexivity.
Qed.

Ltac error_cell :=
  unfold error_step, error_seen, current; cbn;
  repeat match goal with
         | o : option (BehaviorSubject _) |- _ => destruct o
         end;
  cbn; auto.

Lemma error_step_unsubscribed w : error_step (this w) (this (unsubscribed w)).
Proof. destruct w as [c l sv cl]; destruct c. apply error_step_same; reflexivity. Qed.

Lemma error_step_load_flags c : error_step c (load_flags c).
Proof. destruct c. right; right. reflexivity. Qed.

Lemma error_step_save_flags c : error_step c (save_flags c).
Proof. destruct c. right; right. reflexivity. Qed.

Lemma error_step_failed error c : error_step c (failed globalConfig error c).
Proof.
  destruct c as [i ge co pe sa eh su ins lo li sg sd he er].
  right; left. unfold failed; cbn [construct persist defined].
  destruct co, pe; reflexivity.
Qed.

Lemma error_step_refreshed w : error_step (this w) (this (refreshed w)).
Proof.
  unfold refreshed. destruct (construct (this w)); [|left; reflexivity].
  apply (error_step_trans _ (load_flags (this w))); [apply error_step_load_flags|].
  apply (error_step_trans _ (this (unsubscribed (on_this load_flags w))));
    [apply (error_step_unsubscribed (on_this load_flags w))|].
  apply error_step_same; reflexivity.
Qed.

Lemma exec_error_step call w :
  wf w -> error_step (this w) (this (world_of (exec globalConfig call w))).
Proof.
  intros H. destruct call; cbn [exec].
  - rewrite configure_eq. cbn [world_of]. unfold configured. cbv zeta.
    set (w1 := if defined (cfg_initialValue config) && negb (has_value (this w))
               then _ else w).
    assert (error_step (this w) (this w1)) as H1.
    { subst w1. destruct (_ && _); [|left; reflexivity].
      destruct w as [c l sv cl]; destruct c. apply error_step_same; reflexivity. }
    clearbody w1.
    set (w3 := if defined (cfg_construct config) then _ else _).
    assert (error_step (this w) (this w3)) as H3.
    { apply (error_step_trans _ _ _ H1). subst w3.
      apply (error_step_trans _ (this (on_this (merged config) w1))).
      - destruct w1 as [c l sv cl]; destruct c. apply error_step_same; reflexivity.
      - destruct (defined _); [apply error_step_unsubscribed | left; reflexivity]. }
    clearbody w3.
    destruct (cfg_load config); [|exact H3].
    apply (error_step_trans _ _ _ H3), error_step_refreshed.
  - rewrite value_S_eq. cbn [world_of]. unfold value_read.
    destruct (construct (this w)); [|left; reflexivity].
    assert (error_step (this w)
              (this (on_this (materialise loaded_slot has_value) w))) as H1.
    { destruct w as [c l sv cl]; destruct c. apply error_step_same; reflexivity. }
    destruct (current _ _ _); [exact H1|].
    apply (error_step_trans _ _ _ H1), error_step_refreshed.
  - unfold loaded_S. erewrite bind_eq by apply getter_eq. cbn [world_of].
    destruct w as [c l sv cl]; destruct c. apply error_step_same; reflexivity.
  - unfold loading_S. erewrite bind_eq by apply getter_eq. cbn [world_of].
    destruct w as [c l sv cl]; destruct c. apply error_step_same; reflexivity.
  - unfold saving_S. erewrite bind_eq by apply getter_eq. cbn [world_of].
    destruct w as [c l sv cl]; destruct c. apply error_step_same; reflexivity.
  - unfold saved_S. erewrite bind_eq by apply getter_eq. cbn [world_of].
    destruct w as [c l sv cl]; destruct c. apply error_step_same; reflexivity.
  - unfold hasError_S. erewrite bind_eq by apply getter_eq. cbn [world_of].
    destruct w as [c l sv cl]; destruct c. left. error_cell.
  - unfold error_S. erewrite bind_eq by apply getter_eq. cbn [world_of].
    destruct w as [c l sv cl]; destruct c. left. error_cell.
  - rewrite update_eq. cbn [world_of].
    destruct w as [c l sv cl]; destruct c. error_cell.
  - rewrite save_eq. cbn [world_of]. unfold save_begun.
    destruct (persist (this w)); [|left; reflexivity].
    apply error_step_save_flags.
  - rewrite reload_eq. cbn [world_of]. unfold reloaded.
    apply (error_step_trans _ (load_flags (this w))); [apply error_step_load_flags|].
    apply (error_step_trans _ (this (unsubscribed (on_this load_flags w))));
      [apply (error_step_unsubscribed (on_this load_flags w))|].
    apply error_step_same; reflexivity.
  - rewrite reset_eq. cbn [world_of].
    apply (error_step_trans _ (reset_cell item (this w)));
      [|apply (error_step_unsubscribed (on_this (reset_cell item) w))].
    destruct w as [c l sv cl]; destruct c. error_cell.
  - rewrite unsubscribe_eq. apply error_step_unsubscribed.
  - rewrite finish_eq. cbn [world_of].
    apply (error_step_trans _ (finished_cell (this w)));
      [|apply (error_step_unsubscribed (on_this finished_cell w))].
    destruct w as [c l sv cl]; destruct c. left. error_cell.
  - rewrite refresh_eq. apply error_step_refreshed.
  - destruct (load_open w i) eqn:O.
    + pose proof H as (_ & [Ha _] & _).
      destruct (Ha (loads_not_nil w i O)) as [Hl Hg].
      rewrite load_next_open by assumption. cbn [world_of].
      destruct w as [c l sv cl]; destruct c. apply error_step_same; reflexivity.
    + rewrite load_next_closed by exact O. left; reflexivity.
  - destruct (load_open w i) eqn:O.
    + rewrite load_error_open by exact O. apply error_step_failed.
    + rewrite load_error_closed by exact O. left; reflexivity.
  - destruct (load_open w i) eqn:O.
    + rewrite load_complete_open by exact O. left; reflexivity.
    + rewrite load_complete_closed by exact O. left; reflexivity.
  - destruct (save_open w j) eqn:O.
    + unfold save_open in O. destruct (saves w !! j) as [s|] eqn:Es; [|easy].
      destruct (finalised s) eqn:F; [easy|].
      assert (saves w <> []) as Hne by (intros E; rewrite E in Es; easy).
      pose proof H as (_ & [_ Hb] & _). destruct (Hb Hne) as [Hd Hg].
      rewrite (save_next_open j s) by assumption. cbn [world_of].
      destruct w as [c l sv cl]; destruct c. apply error_step_same; reflexivity.
    + rewrite save_next_closed by exact O. left; reflexivity.
  - destruct (save_open w j) eqn:O.
    + rewrite save_error_open by exact O. apply error_step_failed.
    + rewrite save_error_closed by exact O. left; reflexivity.
  - destruct (save_open w j) eqn:O.
    + rewrite save_complete_open by exact O. left; reflexivity.
    + rewrite save_complete_closed by exact O. left; reflexivity.
Qed.

Lemma error_wf_seen c :
  error_wf c -> fst (error_seen c) = true -> exists m, snd (error_seen c) = Some m.
Proof.
  unfold error_wf, error_seen, current; cbn [fst snd slot_get].
  intros Hwf Hv. destruct (_hasError_S c) as [h|]; [|discriminate].
  destruct (Hwf h eq_refl Hv) as (e & m & -> & Hm). exists m. exact Hm.
Qed.

(** C10. Along every history of a cell, a reader who finds hasError=true
    finds an error message, and a call or callback that takes hasError from
    true to false leaves no error message behind. *)
Theorem hasError_implies_errorMessage config calls call :
  (obs_hasError (history globalConfig config calls) = Some true ->
   exists m, obs_errorMessage (history globalConfig config calls) = Some (Some m)) /\
  (obs_hasError (history globalConfig config calls) = Some true ->
   obs_hasError (world_of (exec globalConfig call
                             (history globalConfig config calls))) = Some false ->
   obs_errorMessage (world_of (exec globalConfig call
                                 (history globalConfig config calls))) = Some None).
Proof.
  pose proof (history_wf config calls) as H.
  pose proof (exec_error_step call _ H) as Hstep.
  destruct H as (_ & _ & Herr).
  observe. split.
  - intros [= Hv]. destruct (error_wf_seen _ Herr Hv) as [m Hm].
    exists m. f_equal. exact Hm.
  - intros [= Hv] [= Hv']. f_equal.
    unfold error_step, error_seen in Hstep. cbn [fst] in Hstep.
    destruct Hstep as [E|[E|E]].
    + injection E as E1 E2. congruence.
    + congruence.
    + injection E as E1 E2. exact E2.
Qed.

(** ** [reset] *)

(** X22. After [reset(item)], from any state: the call returns,
    loading=false, hasError=false, no error message, the value is [item]
    and the cell holds no subscription.  What a reader finds for loaded is
    false exactly when [loaded$] existed before the call or [item] is
    absent.  In every world a cell can reach, no load is pending after the
    reset, and whatever a load started earlier delivers changes nothing. *)
Theorem reset_observable item w config calls i v error :
  (returns (reset item w) = true /\
   obs_loading (world_of (reset item w)) = Some false /\
   obs_hasError (world_of (reset item w)) = Some false /\
   obs_errorMessage (world_of (reset item w)) = Some None /\
   obs_value (world_of (reset item w)) = item /\
   subscription (this (world_of (reset item w))) = None /\
   obs_loaded (world_of (reset item w))
   = Some (negb (defined (_loaded_S (this w))) && defined item)) /\
  (load_open (world_of (reset item (history globalConfig config calls))) i = false /\
   load_next i v (world_of (reset item (history globalConfig config calls)))
   = Ok tt (world_of (reset item (history globalConfig config calls))) /\
   load_error globalConfig i error
     (world_of (reset item (history globalConfig config calls)))
   = Ok tt (world_of (reset item (history globalConfig config calls))) /\
   load_complete i (world_of (reset item (history globalConfig config calls)))
   = Ok tt (world_of (reset item (history globalConfig config calls)))).
Proof.
  split.
  - rewrite reset_eq. cbn [returns world_of]. observe.
    destruct w as [[i0 ge co pe sa eh su ins lo li sg sd he er] l sv cl].
    destruct lo, li, he, er, item; repeat split; reflexivity.
  - rewrite reset_eq. cbn [world_of].
    pose proof (history_wf config calls) as H.
    apply (wf_on_this _ _ (tame_reset_cell item)) in H as (Hloads & _).
    pose proof (quiescent_unsubscribed _ Hloads i) as O.
    split; [exact O | split; [|split]].
    + apply load_next_closed, O.
    + apply load_error_closed, O.
    + apply load_complete_closed, O.
Qed.

(** ** [configure] *)

Lemma refreshed_config w :
  genericError (this (refreshed w)) = genericError (this w) /\
  construct (this (refreshed w)) = construct (this w) /\
  persist (this (refreshed w)) = persist (this w) /\
  saved (this (refreshed w)) = saved (this w) /\
  errorHandler (this (refreshed w)) = errorHandler (this w).
Proof.
  unfold refreshed. destruct (construct (this w)) eqn:E; [|tauto].
  destruct w as [c l sv cl]; destruct c; cbn in *. rewrite E. tauto.
Qed.

(** C9 (amended). [configure(cfg)] returns and leaves every configurable
    field either overwritten by the value [cfg] supplies or as it was: the
    function-valued fields are overwritten exactly when [cfg] supplies them,
    [genericError] exactly when [cfg] supplies a non-empty string (an empty
    string, like an omitted one, preserves the previous text). *)
Theorem configure_merges config w :
  returns (configure config w) = true /\
  genericError (this (world_of (configure config w)))
  = (if truthy (cfg_genericError config) then cfg_genericError config
     else genericError (this w)) /\
  construct (this (world_of (configure config w)))
  = match cfg_construct config with
    | Some f => Some f
    | None => construct (this w)
    end /\
  persist (this (world_of (configure config w)))
  = match cfg_persist config with
    | Some p => Some p
    | None => persist (this w)
    end /\
  saved (this (world_of (configure config w)))
  = match cfg_saved config with
    | Some cb => Some cb
    | None => saved (this w)
    end /\
  errorHandler (this (world_of (configure config w)))
  = match cfg_errorHandler config with
    | Some h => Some h
    | None => errorHandler (this w)
    end.
Proof.
  rewrite configure_eq. cbn [returns world_of]. split; [reflexivity|].
  unfold configured. cbv zeta.
  set (w1 := if defined (cfg_initialValue config) && negb (has_value (this w))
             then _ else w).
  assert (genericError (this w1) = genericError (this w) /\
          construct (this w1) = construct (this w) /\
          persist (this w1) = persist (this w) /\
          saved (this w1) = saved (this w) /\
          errorHandler (this w1) = errorHandler (this w)) as (G & C & P & S' & E).
  { subst w1. destruct (_ && _); [|tauto].
    destruct w as [c l sv cl]; destruct c; cbn. tauto. }
  clearbody w1. rewrite <- G, <- C, <- P, <- S', <- E. clear G C P S' E.
  set (w3 := if defined (cfg_construct config) then _ else _).
  assert (this w3 = set_subscription (subscription (this w3)) (merged config (this w1)))
    as E3.
  { subst w3. destruct (defined _); destruct w1 as [c l sv cl]; destruct c;
      reflexivity. }
  assert (genericError (this w3) = js_or (cfg_genericError config) (genericError (this w1)) /\
          construct (this w3) = js_or_obj (cfg_construct config) (construct (this w1)) /\
          persist (this w3) = js_or_obj (cfg_persist config) (persist (this w1)) /\
          saved (this w3) = js_or_obj (cfg_saved config) (saved (this w1)) /\
          errorHandler (this w3)
          = js_or_obj (cfg_errorHandler config) (errorHandler (this w1)))
    as (G & C & P & S' & E).
  { rewrite E3. repeat split; reflexivity. }
  clearbody w3. clear E3.
  assert (forall A (a b : option A),
             js_or_obj a b = match a with Some x => Some x | None => b end) as J
    by (intros A [x|] b; reflexivity).
  rewrite <- !J. unfold js_or in G. rewrite <- G, <- C, <- P, <- S', <- E.
  destruct (cfg_load config); [apply refreshed_config | tauto].
Qed.

(** ** [reload] *)

(** C2 (amended). [reload(f)] returns and stores [f] as the cell's source:
    afterwards [construct] is [f], and a following [refresh()] without
    argument starts its load from [f] and holds that load's subscription. *)
Theorem reload_persists f w :
  returns (reload f w) = true /\
  construct (this (world_of (reload f w))) = Some f /\
  returns (refresh (world_of (reload f w))) = true /\
  last (loads (world_of (refresh (world_of (reload f w)))))
  = Some (mkSubscription f false) /\
  subscription (this (world_of (refresh (world_of (reload f w)))))
  = Some (length (loads (world_of (reload f w)))).
Proof.
  rewrite reload_eq. cbn [returns world_of]. rewrite refresh_eq.
  cbn [returns world_of].
  assert (construct (this (reloaded f w)) = Some f) as E by reflexivity.
  unfold refreshed. rewrite E.
  repeat split.
  - unfold started at 1; cbn [loads]. apply last_snoc.
  - unfold started at 1; cbn [this subscription set_subscription].
    rewrite length_unsubscribed. reflexivity.
Qed.

(** ** [finish] *)

Lemma finish_completes w :
  returns (finish w) = true /\
  isStopped (instance_S (this (world_of (finish w)))) = true /\
  (is_Some (_loading_S (this w)) ->
   completed (_loading_S (this (world_of (finish w)))) = true) /\
  (is_Some (_loaded_S (this w)) ->
   completed (_loaded_S (this (world_of (finish w)))) = true) /\
  (is_Some (_error_S (this w)) ->
   completed (_error_S (this (world_of (finish w)))) = true) /\
  (is_Some (_hasError_S (this w)) ->
   completed (_hasError_S (this (world_of (finish w)))) = true) /\
  subscription (this (world_of (finish w))) = None /\
  (loads_wf w -> quiescent (world_of (finish w))) /\
  returns (finish (world_of (finish w))) = true.
Proof.
  rewrite !finish_eq. cbn [returns world_of].
  split; [reflexivity|]. repeat split.
  - destruct w as [[i ge co pe sa eh su ins lo li sg sd he er] l sv cl].
    cbn. intros [b ->]. reflexivity.
  - destruct w as [[i ge co pe sa eh su ins lo li sg sd he er] l sv cl].
    cbn. intros [b ->]. reflexivity.
  - destruct w as [[i ge co pe sa eh su ins lo li sg sd he er] l sv cl].
    cbn. intros [b ->]. reflexivity.
  - destruct w as [[i ge co pe sa eh su ins lo li sg sd he er] l sv cl].
    cbn. intros [b ->]. reflexivity.
  - intros H. apply quiescent_unsubscribed.
    destruct w as [c l sv cl]; destruct c. exact H.
Qed.

Lemma finish_saving_untouched w :
  _saving_S (this (world_of (finish w))) = _saving_S (this w) /\
  _saved_S (this (world_of (finish w))) = _saved_S (this w).
Proof.
  rewrite finish_eq. cbn [world_of].
  destruct w as [c l sv cl]; destruct c. split; reflexivity.
Qed.

(** C4 (amended). Nothing guards the mutators against a finished cell:
    after [finish()], [update], [refresh], [reload], [save], [reset] and
    [configure] all return normally; [update] still stores its value, which
    the completed value subject no longer pushes to its observers. *)
Theorem mutators_after_finish w value saved_arg f item config :
  returns (finish w) = true /\
  isStopped (instance_S (this (world_of (finish w)))) = true /\
  returns (update value (world_of (finish w))) = true /\
  returns (refresh (world_of (finish w))) = true /\
  returns (reload f (world_of (finish w))) = true /\
  returns (save saved_arg (world_of (finish w))) = true /\
  returns (reset item (world_of (finish w))) = true /\
  returns (configure config (world_of (finish w))) = true /\
  obs_value (world_of (update value (world_of (finish w)))) = value /\
  observed (instance_S (this (world_of (update value (world_of (finish w))))))
  = observed (instance_S (this (world_of (finish w)))).
Proof.
  rewrite update_eq, refresh_eq, reload_eq, save_eq, reset_eq, configure_eq,
    finish_eq.
  cbn [returns world_of].
  destruct w as [[i ge co pe sa eh su ins lo li sg sd he er] l sv cl].
  repeat split.
Qed.

End Properties.

(** * More of the class: how the calls behave *)

Section Coverage.

Context {T Err Ack Source Sink Callback : Type}.
Variable globalConfig : GlobalConfig Err.

Local Abbreviation Config := (RxCacheItemConfig T Err Source Sink Callback).
Local Abbreviation Cell := (RxCacheItem T Err Source Sink Callback).
Local Abbreviation World := (World T Err Ack Source Sink Callback).
Local Abbreviation Call := (Call T Err Ack Source Sink Callback).

Implicit Types (w : World) (c : Cell) (config : Config) (calls : list Call)
  (call : Call).

Lemma exec_after call w :
  wf w -> exec globalConfig call w = Ok tt (after_call globalConfig call w).
Proof.
  intros H. destruct call; cbn [exec after_call].
  - apply configure_eq.
  - apply value_S_eq.
  - unfold loaded_S. erewrite bind_eq by apply getter_eq. reflexivity.
  - unfold loading_S. erewrite bind_eq by apply getter_eq. reflexivity.
  - unfold saving_S. erewrite bind_eq by apply getter_eq. reflexivity.
  - unfold saved_S. erewrite bind_eq by apply getter_eq. reflexivity.
  - unfold hasError_S. erewrite bind_eq by apply getter_eq. reflexivity.
  - unfold error_S. erewrite bind_eq by apply getter_eq. reflexivity.
  - apply update_eq.
  - apply save_eq.
  - apply reload_eq.
  - apply reset_eq.
  - apply unsubscribe_eq.
  - apply finish_eq.
  - apply refresh_eq.
  - destruct (load_open w i) eqn:O.
    + pose proof H as (_ & [Ha _] & _).
      destruct (Ha (loads_not_nil w i O)) as [Hl Hg].
      apply load_next_open; assumption.
    + apply load_next_closed, O.
  - destruct (load_open w i) eqn:O.
    + apply load_error_open, O.
    + apply load_error_closed, O.
  - destruct (load_open w i) eqn:O.
    + apply load_complete_open, O.
    + apply load_complete_closed, O.
  - destruct (saves w !! j) as [s|] eqn:Es.
    + destruct (finalised s) eqn:F.
      * apply save_next_closed. unfold save_open. rewrite Es, F. reflexivity.
      * assert (saves w <> []) as Hne by (intros E; rewrite E in Es; easy).
        pose proof H as (_ & [_ Hb] & _). destruct (Hb Hne) as [Hd Hg].
        apply save_next_open; assumption.
    + apply save_next_closed. unfold save_open. rewrite Es. reflexivity.
  - destruct (save_open w j) eqn:O.
    + apply save_error_open, O.
    + apply save_error_closed, O.
  - destruct (save_open w j) eqn:O.
    + apply save_complete_open, O.
    + apply save_complete_closed, O.
Qed.

(** X1. No call and no callback ever throws on a cell that was built by the
    constructor and used through its members: whenever a callback reaches a
    subject through a private field ([this._loaded$.next], ...), the subject
    exists. *)
Theorem calls_never_throw config calls call :
  returns (new (Ack:=Ack) config) = true /\
  returns (exec globalConfig call (history globalConfig config calls)) = true.
Proof.
  split; [apply new_wf|].
  rewrite exec_after by apply history_wf. reflexivity.
Qed.

(** X2. At most one load is in flight: in every history, two open load
    subscriptions are the same one, it is the one the cell holds, and it is
    the load started last. *)
Theorem one_load_in_flight config calls i k :
  load_open (history globalConfig config calls) i = true ->
  load_open (history globalConfig config calls) k = true ->
  i = k /\
  subscription (this (history globalConfig config calls)) = Some i /\
  S i = length (loads (history globalConfig config calls)).
Proof.
  intros Oi Ok.
  pose proof (history_wf globalConfig config calls) as (Hloads & _).
  pose proof (load_open_current _ i Hloads Oi) as Ei.
  pose proof (load_open_current _ k Hloads Ok) as Ek.
  repeat split; [congruence | exact Ei | apply Hloads, Ei].
Qed.

Ltac observe :=
  unfold observation;
  rewrite ?obs_loaded_eq, ?obs_loading_eq, ?obs_saving_eq, ?obs_saved_eq,
    ?obs_hasError_eq, ?obs_errorMessage_eq.

Ltac splits := repeat match goal with |- _ /\ _ => split end.

Ltac open_world w :=
  destruct w as [[i0 ge co pe sa eh su ins lo li sg sd he er] l sv cl].

(** X3. Reading a flag creates its subject at most, and changes nothing a
    reader can observe: the value and the seven observations are the same
    after the read, and no load, save or callback is started. *)
Theorem flag_getters_are_transparent call w :
  is_flag_getter call = true ->
  returns (exec globalConfig call w) = true /\
  observation (world_of (exec globalConfig call w)) = observation w /\
  loads (world_of (exec globalConfig call w)) = loads w /\
  saves (world_of (exec globalConfig call w)) = saves w /\
  called (world_of (exec globalConfig call w)) = called w.
Proof.
  destruct call; try discriminate; intros _; cbn [exec];
    unfold loaded_S, loading_S, saving_S, saved_S, hasError_S, error_S;
    (erewrite bind_eq by apply getter_eq); cbn [ret returns world_of];
    (split; [reflexivity|]); observe; open_world w.
  - destruct lo; splits; reflexivity.
  - destruct li; splits; reflexivity.
  - destruct sg; splits; reflexivity.
  - destruct sd; splits; reflexivity.
  - destruct he; splits; reflexivity.
  - destruct er; splits; reflexivity.
Qed.

Lemma refreshed_value w : obs_value (refreshed w) = obs_value w.
Proof.
  unfold refreshed. destruct (construct (this w)); [|reflexivity].
  open_world w. reflexivity.
Qed.

(** X4. The getter [value$] starts a load exactly when a source is
    configured and loaded is false.  Without a source it changes nothing (not
    even [loaded$] is created); with a source and loaded=true it starts
    nothing and no observation changes; with a source [f] and loaded=false
    it starts a load from [f], held by the cell, with loading=true.  The
    value itself is never changed by the read. *)
Theorem value_S_lazy_load w f :
  returns (value_S w) = true /\
  obs_value (world_of (value_S w)) = obs_value w /\
  (construct (this w) = None -> world_of (value_S w) = w) /\
  (construct (this w) = Some f -> obs_loaded w = Some true ->
   loads (world_of (value_S w)) = loads w /\
   subscription (this (world_of (value_S w))) = subscription (this w) /\
   observation (world_of (value_S w)) = observation w) /\
  (construct (this w) = Some f -> obs_loaded w = Some false ->
   last (loads (world_of (value_S w))) = Some (mkSubscription f false) /\
   subscription (this (world_of (value_S w))) = Some (length (loads w)) /\
   obs_loading (world_of (value_S w)) = Some true /\
   obs_loaded (world_of (value_S w)) = Some false /\
   obs_hasError (world_of (value_S w)) = Some false /\
   obs_errorMessage (world_of (value_S w)) = Some None).
Proof.
  rewrite value_S_eq. cbn [returns world_of]. observe.
  unfold value_read.
  split; [reflexivity|]. split; [|split; [|split]].
  - destruct (construct (this w)) eqn:E; [|reflexivity].
    destruct (current _ _ _); rewrite ?refreshed_value;
      open_world w; reflexivity.
  - intros ->. reflexivity.
  - intros E [= L]. rewrite E.
    destruct (current loaded_slot has_value (this w)) eqn:C; [clear L|discriminate].
    open_world w. unfold observation, obs_value, current in *.
    destruct lo; cbn in *; rewrite ?C; splits; reflexivity.
  - intros E [= L]. rewrite E, L. unfold refreshed.
    assert (construct (this (on_this (materialise loaded_slot has_value) w)) = Some f)
      as E' by (open_world w; exact E).
    rewrite E'. unfold started at 1 2; cbn [loads this subscription set_subscription].
    rewrite length_unsubscribed.
    split; [apply last_snoc|]. split; [reflexivity|].
    open_world w. destruct lo, li, he, er; splits; reflexivity.
Qed.

Lemma unsubscribed_observation w : observation (unsubscribed w) = observation w.
Proof. observe. open_world w. reflexivity. Qed.

Lemma unsubscribed_twice w : unsubscribed (unsubscribed w) = unsubscribed w.
Proof. open_world w. reflexivity. Qed.

(** X5. [unsubscribe()] cancels the load and touches nothing else: every
    observation is as before (a cell cancelled in the middle of a load
    keeps reporting the loading it had), the cell holds no subscription, a
    second call changes nothing more, and in every history no load is
    pending afterwards. *)
Theorem unsubscribe_keeps_flags w config calls i :
  returns (unsubscribe w) = true /\
  observation (world_of (unsubscribe w)) = observation w /\
  subscription (this (world_of (unsubscribe w))) = None /\
  saves (world_of (unsubscribe w)) = saves w /\
  world_of (unsubscribe (world_of (unsubscribe w))) = world_of (unsubscribe w) /\
  load_open (world_of (unsubscribe (history globalConfig config calls))) i = false.
Proof.
  rewrite !unsubscribe_eq. cbn [returns world_of].
  split; [reflexivity|]. split; [apply unsubscribed_observation|].
  split; [reflexivity|]. split; [reflexivity|].
  split; [apply unsubscribed_twice|].
  apply quiescent_unsubscribed, history_wf.
Qed.

(** X6. [finish()] is idempotent on the whole world: a second call leaves
    everything exactly as the first did.  It changes no observation (the
    last state stays readable), and the subjects of loading, loaded, error
    and hasError are completed exactly when they existed. *)
Theorem finish_idempotent w :
  world_of (finish (world_of (finish w))) = world_of (finish w) /\
  observation (world_of (finish w)) = observation w /\
  completed (_loading_S (this (world_of (finish w)))) = defined (_loading_S (this w)) /\
  completed (_loaded_S (this (world_of (finish w)))) = defined (_loaded_S (this w)) /\
  completed (_error_S (this (world_of (finish w)))) = defined (_error_S (this w)) /\
  completed (_hasError_S (this (world_of (finish w))))
  = defined (_hasError_S (this w)).
Proof.
  rewrite !finish_eq. cbn [world_of]. observe. open_world w.
  destruct lo, li, he, er; splits; vm_compute; reflexivity.
Qed.

(** X7. [save(cb)] with a sink [p]: saving=true, saved=false, hasError=false,
    no error message; the sink receives the current value, the new save is
    appended open with the caller's callback, and neither the value nor the
    loads nor the held subscription change.  Without a sink the call changes
    nothing at all. *)
Theorem save_starts w p saved_arg :
  returns (save saved_arg w) = true /\
  (persist (this w) = None -> world_of (save saved_arg w) = w) /\
  (persist (this w) = Some p ->
   obs_saving (world_of (save saved_arg w)) = Some true /\
   obs_saved (world_of (save saved_arg w)) = Some false /\
   obs_hasError (world_of (save saved_arg w)) = Some false /\
   obs_errorMessage (world_of (save saved_arg w)) = Some None /\
   saves (world_of (save saved_arg w))
   = (saves w ++ [mkSaveSubscription p (obs_value w) saved_arg false])%list /\
   obs_value (world_of (save saved_arg w)) = obs_value w /\
   obs_loaded (world_of (save saved_arg w)) = obs_loaded w /\
   obs_loading (world_of (save saved_arg w)) = obs_loading w /\
   loads (world_of (save saved_arg w)) = loads w /\
   subscription (this (world_of (save saved_arg w))) = subscription (this w)).
Proof.
  rewrite save_eq. cbn [returns world_of]. unfold save_begun.
  split; [reflexivity|]. split; [intros ->; reflexivity|].
  intros ->. observe. open_world w.
  destruct sg, sd, he, er; splits; reflexivity.
Qed.

(** X8. [refresh()] with a source [f]: loading=true, loaded=false,
    hasError=false, no error message, the value as before; the load the
    cell held is closed, a new one from [f] is appended open and held, and
    saves are untouched.  Without a source the call changes nothing, and
    creates no subject. *)
Theorem refresh_starts w f :
  returns (refresh w) = true /\
  (construct (this w) = None -> world_of (refresh w) = w) /\
  (construct (this w) = Some f ->
   obs_loading (world_of (refresh w)) = Some true /\
   obs_loaded (world_of (refresh w)) = Some false /\
   obs_hasError (world_of (refresh w)) = Some false /\
   obs_errorMessage (world_of (refresh w)) = Some None /\
   obs_value (world_of (refresh w)) = obs_value w /\
   obs_saving (world_of (refresh w)) = obs_saving w /\
   obs_saved (world_of (refresh w)) = obs_saved w /\
   loads (world_of (refresh w))
   = (match subscription (this w) with
      | Some i => alter close i (loads w)
      | None => loads w
      end ++ [mkSubscription f false])%list /\
   subscription (this (world_of (refresh w))) = Some (length (loads w)) /\
   load_open (world_of (refresh w)) (length (loads w)) = true /\
   saves (world_of (refresh w)) = saves w).
Proof.
  rewrite refresh_eq. cbn [returns world_of]. unfold refreshed.
  split; [reflexivity|]. split; [intros ->; reflexivity|].
  intros ->. observe. splits.
  all: try (open_world w; destruct lo, li, he, er; vm_compute; reflexivity).
  - unfold started; cbn [this subscription set_subscription].
    rewrite length_unsubscribed. reflexivity.
  - unfold load_open, started; cbn [loads].
    rewrite lookup_app_r by (rewrite length_unsubscribed; cbn; lia).
    rewrite length_unsubscribed. cbn [loads on_this]. rewrite Nat.sub_diag.
    reflexivity.
Qed.

(** X9. A value delivered by the load in flight: the call returns, the value
    is the delivered item, loaded=true and loading=false; hasError, the
    error message, saving and saved are as before; the subscription stays
    open and held, so the same load may deliver again. *)
Theorem load_success config calls i item :
  load_open (history globalConfig config calls) i = true ->
  returns (load_next i item (history globalConfig config calls)) = true /\
  obs_value (world_of (load_next i item (history globalConfig config calls)))
  = Some item /\
  obs_loaded (world_of (load_next i item (history globalConfig config calls)))
  = Some true /\
  obs_loading (world_of (load_next i item (history globalConfig config calls)))
  = Some false /\
  obs_hasError (world_of (load_next i item (history globalConfig config calls)))
  = obs_hasError (history globalConfig config calls) /\
  obs_errorMessage (world_of (load_next i item (history globalConfig config calls)))
  = obs_errorMessage (history globalConfig config calls) /\
  obs_saving (world_of (load_next i item (history globalConfig config calls)))
  = obs_saving (history globalConfig config calls) /\
  obs_saved (world_of (load_next i item (history globalConfig config calls)))
  = obs_saved (history globalConfig config calls) /\
  load_open (world_of (load_next i item (history globalConfig config calls))) i
  = true /\
  subscription (this (world_of (load_next i item (history globalConfig config calls))))
  = Some i.
Proof.
  intros O.
  pose proof (history_wf globalConfig config calls) as H.
  pose proof (load_open_current _ i (proj1 H) O) as Hs.
  pose proof H as (_ & [Ha _] & _).
  destruct (Ha (loads_not_nil _ i O)) as [Hl Hg].
  rewrite load_next_open by assumption. cbn [returns world_of].
  revert O Hs. generalize (history globalConfig config calls). clear.
  intros w O Hs. observe. splits; try exact O.
  all: open_world w; try (destruct lo, li; vm_compute; reflexivity).
  exact Hs.
Qed.

(** X10. An acknowledgement delivered by a save in flight: the caller's
    callback is called first, then the cell's [saved] callback, each with the
    acknowledgement; saved=true and saving=false; value, load flags and
    error state are as before; the subscription is finalised, so whatever
    the same save delivers afterwards changes nothing. *)
Theorem save_success_once config calls j s val val' error :
  saves (history globalConfig config calls) !! j = Some s ->
  finalised s = false ->
  returns (save_next j val (history globalConfig config calls)) = true /\
  called (world_of (save_next j val (history globalConfig config calls)))
  = (called (history globalConfig config calls)
     ++ match onSaved s with Some cb => [(cb, val)] | None => [] end
     ++ match saved (this (history globalConfig config calls)) with
        | Some cb => [(cb, val)]
        | None => []
        end)%list /\
  obs_saved (world_of (save_next j val (history globalConfig config calls)))
  = Some true /\
  obs_saving (world_of (save_next j val (history globalConfig config calls)))
  = Some false /\
  obs_value (world_of (save_next j val (history globalConfig config calls)))
  = obs_value (history globalConfig config calls) /\
  obs_loaded (world_of (save_next j val (history globalConfig config calls)))
  = obs_loaded (history globalConfig config calls) /\
  obs_loading (world_of (save_next j val (history globalConfig config calls)))
  = obs_loading (history globalConfig config calls) /\
  obs_hasError (world_of (save_next j val (history globalConfig config calls)))
  = obs_hasError (history globalConfig config calls) /\
  obs_errorMessage (world_of (save_next j val (history globalConfig config calls)))
  = obs_errorMessage (history globalConfig config calls) /\
  save_open (world_of (save_next j val (history globalConfig config calls))) j
  = false /\
  save_next j val' (world_of (save_next j val (history globalConfig config calls)))
  = Ok tt (world_of (save_next j val (history globalConfig config calls))) /\
  save_error globalConfig j error
    (world_of (save_next j val (history globalConfig config calls)))
  = Ok tt (world_of (save_next j val (history globalConfig config calls))).
Proof.
  intros Es F.
  pose proof (history_wf globalConfig config calls) as H.
  assert (saves (history globalConfig config calls) <> []) as Hne
    by (intros E; rewrite E in Es; easy).
  pose proof H as (_ & [_ Hb] & _). destruct (Hb Hne) as [Hd Hg].
  rewrite (save_next_open j s) by assumption. cbn [returns world_of].
  revert Es Hd Hg. generalize (history globalConfig config calls). clear - F.
  intros w Es Hd Hg.
  assert (save_open (save_delivered j s val w) j = false) as O.
  { unfold save_open, save_delivered; cbn [saves].
    rewrite list_lookup_alter_eq, Es. reflexivity. }
  observe. splits.
  all: try (open_world w; destruct Hd as [bd Hd], Hg as [bg Hg];
            cbn in Hd, Hg; subst; vm_compute; reflexivity).
  - exact O.
  - apply save_next_closed, O.
  - apply save_error_closed, O.
Qed.

(** ** What the calls leave alone *)

Lemma refreshed_frame w :
  called (refreshed w) = called w /\ saves (refreshed w) = saves w.
Proof. unfold refreshed. destruct (construct (this w)); split; reflexivity. Qed.

Lemma configured_frame config w :
  called (configured config w) = called w /\
  saves (configured config w) = saves w.
Proof.
  unfold configured. cbv zeta.
  destruct (_ && _), (defined (cfg_construct config)), (cfg_load config);
    rewrite ?(proj1 (refreshed_frame _)), ?(proj2 (refreshed_frame _));
    split; reflexivity.
Qed.

Lemma value_read_frame w :
  called (value_read w) = called w /\ saves (value_read w) = saves w.
Proof.
  unfold value_read. destruct (construct (this w)); [|split; reflexivity].
  destruct (current _ _ _);
    rewrite ?(proj1 (refreshed_frame _)), ?(proj2 (refreshed_frame _));
    split; reflexivity.
Qed.

(** X11. The callbacks handed to the cell are called by a successful save
    and by nothing else: along every history, any other call or callback
    (a failing or completing save included) leaves the record of callback
    calls as it is. *)
Theorem callbacks_only_on_save_success config calls call :
  match call with
  | SaveNext _ _ => True
  | _ => called (world_of (exec globalConfig call (history globalConfig config calls)))
         = called (history globalConfig config calls)
  end.
Proof.
  pose proof (exec_after call _ (history_wf globalConfig config calls))
    as E.
  destruct call; [rewrite E; cbn [world_of after_call] ..| exact I | |];
    try rewrite E; cbn [world_of after_call].
  all: try reflexivity.
  - apply configured_frame.
  - apply value_read_frame.
  - unfold save_begun. destruct (persist _); reflexivity.
  - apply refreshed_frame.
  - destruct (load_open _ _); reflexivity.
  - destruct (load_open _ _); reflexivity.
  - destruct (load_open _ _); reflexivity.
  - destruct (save_open _ _); reflexivity.
  - destruct (save_open _ _); reflexivity.
Qed.

(** X12. Only its own callbacks end a save: along every history, a call
    that is not a callback of a save keeps every save already started, in
    place and in the state it had, so [finish], [reset], [unsubscribe] and a
    new load cancel no save in flight. *)
Theorem saves_survive config calls call j :
  is_save_event call = false ->
  save_open (history globalConfig config calls) j = true ->
  save_open (world_of (exec globalConfig call (history globalConfig config calls))) j
  = true /\
  saves (world_of (exec globalConfig call (history globalConfig config calls))) !! j
  = saves (history globalConfig config calls) !! j.
Proof.
  intros Hc O.
  rewrite (exec_after call _ (history_wf globalConfig config calls)).
  cbn [world_of].
  revert O. generalize (history globalConfig config calls). intros w O.
  assert (saves (after_call globalConfig call w) !! j = saves w !! j) as E.
  { destruct call; try discriminate; cbn [after_call];
      rewrite ?(proj2 (configured_frame _ _)), ?(proj2 (value_read_frame _)),
        ?(proj2 (refreshed_frame _)); try reflexivity.
    - unfold save_begun. destruct (persist (this w)); [|reflexivity].
      cbn [saves]. apply lookup_app_l.
      unfold save_open in O. destruct (saves w !! j) eqn:Ej; [|discriminate].
      apply lookup_lt_Some in Ej. exact Ej.
    - destruct (load_open _ _); reflexivity.
    - destruct (load_open _ _); reflexivity.
    - destruct (load_open _ _); reflexivity. }
  split; [|exact E]. unfold save_open in *. rewrite E. exact O.
Qed.

Lemma loads_on_this f w : loads (on_this f w) = loads w.
Proof. reflexivity. Qed.

(** X13. Reading a flag, [update], [save], a value delivered by a load and
    the callbacks of saves never cancel or replace the load in flight: along
    every history they leave the list of loads and the held subscription as
    they are (so a failing save resets the load flags but not the load). *)
Theorem load_survives config calls call :
  keeps_load call = true ->
  loads (world_of (exec globalConfig call (history globalConfig config calls)))
  = loads (history globalConfig config calls) /\
  subscription
    (this (world_of (exec globalConfig call (history globalConfig config calls))))
  = subscription (this (history globalConfig config calls)).
Proof.
  intros Hc.
  rewrite (exec_after call _ (history_wf globalConfig config calls)).
  cbn [world_of]. generalize (history globalConfig config calls). intros w.
  destruct call; try discriminate; cbn [after_call].
  all: try (split; [reflexivity | open_world w; reflexivity]).
  - unfold save_begun. destruct (persist (this w)); [|split; reflexivity].
    split; [reflexivity | open_world w; reflexivity].
  - destruct (load_open w i); [|split; reflexivity].
    split; [reflexivity | open_world w; reflexivity].
  - destruct (saves w !! j) as [s|]; [|split; reflexivity].
    destruct (finalised s); [split; reflexivity|].
    split; [reflexivity | open_world w; reflexivity].
  - destruct (save_open w j); [|split; reflexivity].
    split; [reflexivity|].
    apply (tame_subscription _ (tame_failed globalConfig error)).
  - destruct (save_open w j); split; reflexivity.
Qed.

(** ** The error text *)

Lemma truthy_generic (text : string) : text <> EmptyString -> truthy (Some text) = true.
Proof. intros H. destruct text; [congruence | reflexivity]. Qed.

Lemma js_or_truthy_r (x y : JsString) : truthy y = true -> truthy (js_or x y) = true.
Proof. intros H. unfold js_or. destruct (truthy x) eqn:E; assumption. Qed.

(** X14. With a non-empty global generic text, the message left by a
    failure is never absent and never empty, whatever the handlers return. *)
Theorem error_message_never_empty w error :
  g_genericError globalConfig <> EmptyString ->
  exists m, obs_errorMessage (world_of (runErrorHandler globalConfig error w))
            = Some (Some m) /\ m <> EmptyString.
Proof.
  intros Hg. rewrite runErrorHandler_eq. cbn [world_of].
  rewrite obs_errorMessage_eq. cbn [this on_this]. rewrite failed_error_S.
  assert (truthy (error_text globalConfig (this w) error) = true) as Ht.
  { unfold error_text. apply js_or_truthy_r, truthy_generic, Hg. }
  destruct (error_text globalConfig (this w) error) as [m|]; [|discriminate].
  exists m. split; [reflexivity|]. intros ->. discriminate.
Qed.

(** X15. A cell with its own errorHandler never shows the global handler's
    text when the global generic text is non-empty: its message is the
    handler's result, else the cell's generic text, else the global generic
    text, and does not depend on the global handler. *)
Theorem own_handler_shadows_global w error handler gh gh' (text : string) :
  errorHandler (this w) = Some handler ->
  text <> EmptyString ->
  obs_errorMessage (world_of (runErrorHandler (mkGlobalConfig gh text) error w))
  = Some (js_or (js_or (handler error) (genericError (this w))) (Some text)) /\
  obs_errorMessage (world_of (runErrorHandler (mkGlobalConfig gh text) error w))
  = obs_errorMessage (world_of (runErrorHandler (mkGlobalConfig gh' text) error w)).
Proof.
  intros Eh Ht.
  assert (forall g, obs_errorMessage
                      (world_of (runErrorHandler (mkGlobalConfig g text) error w))
                    = Some (js_or (js_or (handler error) (genericError (this w)))
                                  (Some text))) as H.
  { intros g. rewrite runErrorHandler_eq. cbn [world_of].
    rewrite obs_errorMessage_eq. cbn [this on_this]. rewrite failed_error_S.
    unfold error_text. rewrite Eh. cbn [g_genericError g_errorHandler].
    f_equal.
    assert (truthy (js_or (js_or (handler error) (genericError (this w)))
                          (Some text)) = true) as Hy
      by apply js_or_truthy_r, truthy_generic, Ht.
    unfold js_or at 1 2. rewrite Hy. cbn. rewrite Hy. reflexivity. }
  split; [apply H | rewrite !H; reflexivity].
Qed.

(** ** The constructor and [configure] *)

(** X16. [new RxCacheItem(config)] returns a cell with the id, value,
    source, sink, callback and handler of [config] and its generic text when
    that is non-empty; no save and no callback call exists; a load (from the
    source of [config]) is started exactly when [config.load] is set and a
    source is given, and then loading=true and loaded=false, else
    loading=false and loaded tells whether an initial value was given. *)
Theorem new_state config :
  returns (new (Ack:=Ack) config) = true /\
  id (this (world_of (new (Ack:=Ack) config))) = cfg_id config /\
  obs_value (world_of (new (Ack:=Ack) config)) = cfg_initialValue config /\
  genericError (this (world_of (new (Ack:=Ack) config)))
  = (if truthy (cfg_genericError config) then cfg_genericError config else None) /\
  construct (this (world_of (new (Ack:=Ack) config))) = cfg_construct config /\
  persist (this (world_of (new (Ack:=Ack) config))) = cfg_persist config /\
  saved (this (world_of (new (Ack:=Ack) config))) = cfg_saved config /\
  errorHandler (this (world_of (new (Ack:=Ack) config))) = cfg_errorHandler config /\
  saves (world_of (new (Ack:=Ack) config)) = [] /\
  called (world_of (new (Ack:=Ack) config)) = [] /\
  loads (world_of (new (Ack:=Ack) config))
  = match cfg_construct config with
    | Some f => if cfg_load config then [mkSubscription f false] else []
    | None => []
    end /\
  obs_loading (world_of (new (Ack:=Ack) config))
  = Some (cfg_load config && defined (cfg_construct config)) /\
  obs_loaded (world_of (new (Ack:=Ack) config))
  = Some (if cfg_load config && defined (cfg_construct config) then false
          else defined (cfg_initialValue config)).
Proof.
  unfold new. rewrite configure_eq. cbn [returns world_of].
  rewrite obs_loading_eq, obs_loaded_eq.
  destruct config as [ci civ cge cco cpe csa ceh clo].
  splits; destruct civ, cco, cpe, csa, ceh, clo; vm_compute;
    try reflexivity; destruct cge as [[|a x]|]; reflexivity.
Qed.

(** X17. [configure(cfg)] uses [cfg.initialValue] only to fill a cell that
    has no value: a value already held is never replaced.  When the initial
    value is taken and no load follows, a reader finds loaded=true. *)
Theorem configure_initialValue config w v :
  returns (configure config w) = true /\
  obs_value (world_of (configure config w))
  = (if has_value (this w) then obs_value w else cfg_initialValue config) /\
  (has_value (this w) = false -> cfg_initialValue config = Some v ->
   cfg_load config && defined (js_or_obj (cfg_construct config) (construct (this w)))
   = false ->
   obs_loaded (world_of (configure config w)) = Some true).
Proof.
  rewrite configure_eq. cbn [returns world_of]. rewrite obs_loaded_eq.
  destruct config as [ci civ cge cco cpe csa ceh clo].
  cbn [cfg_initialValue cfg_load cfg_construct].
  open_world w. destruct ins as [iv ist iob].
  splits.
  - reflexivity.
  - destruct civ, iv, cco, clo, co; vm_compute; reflexivity.
  - intros Hv -> Hl. cbn in Hv.
    destruct iv; [discriminate|].
    destruct cco, clo, co, lo; cbn in Hl; try discriminate; vm_compute; reflexivity.
Qed.

(** X18. [configure(cfg)] with [load] set loads from the source that results
    from the merge, so a source given in the same [cfg] is the one used;
    with no source at all nothing is started.  A new source given without
    [load] cancels the load in flight and starts none. *)
Theorem configure_source_and_load config w f config0 calls i :
  (cfg_load config = true ->
   js_or_obj (cfg_construct config) (construct (this w)) = Some f ->
   last (loads (world_of (configure config w))) = Some (mkSubscription f false) /\
   obs_loading (world_of (configure config w)) = Some true /\
   obs_loaded (world_of (configure config w)) = Some false) /\
  (cfg_load config = true ->
   js_or_obj (cfg_construct config) (construct (this w)) = None ->
   loads (world_of (configure config w)) = loads w /\
   subscription (this (world_of (configure config w))) = subscription (this w)) /\
  (cfg_construct config = Some f -> cfg_load config = false ->
   construct (this (world_of (configure config w))) = Some f /\
   subscription (this (world_of (configure config w))) = None /\
   load_open (world_of (configure config (history globalConfig config0 calls))) i
   = false).
Proof.
  rewrite !configure_eq. cbn [world_of]. rewrite obs_loading_eq, obs_loaded_eq.
  splits.
  - intros Hl Hc. unfold configured. cbv zeta. rewrite Hl.
    set (w3 := if defined (cfg_construct config) then _ else _).
    assert (construct (this w3) = Some f) as E.
    { subst w3. rewrite <- Hc.
      destruct (defined (cfg_construct config)), (_ && _);
        open_world w; reflexivity. }
    clearbody w3. unfold refreshed. rewrite E. splits.
    + unfold started; cbn [loads]. apply last_snoc.
    + open_world w3. destruct li; reflexivity.
    + open_world w3. destruct lo; reflexivity.
  - intros Hl Hc. unfold configured. cbv zeta. rewrite Hl.
    destruct (cfg_construct config) as [g|] eqn:Eg; [discriminate|].
    cbn [js_or_obj defined] in *. unfold refreshed, merged. rewrite Eg.
    destruct (_ && _); open_world w; cbn in Hc |- *; rewrite Hc;
      split; reflexivity.
  - intros Hc Hl. unfold configured. cbv zeta. rewrite Hl, Hc. cbn [defined].
    splits.
    + unfold merged. rewrite Hc. destruct (_ && _); open_world w; reflexivity.
    + destruct (_ && _); open_world w; reflexivity.
    + apply quiescent_unsubscribed.
      pose proof (history_wf globalConfig config0 calls) as H.
      destruct (_ && _).
      * apply (wf_on_this _ _ (tame_merged config)), wf_on_this;
          [apply tame_initialised | exact H].
      * apply (wf_on_this _ _ (tame_merged config)), H.
Qed.

(** X19. [update(undefined)] stores the absent value; what a reader then
    finds for loaded depends on whether [loaded$] existed: true if it did,
    false (the value is absent) if it is created by that read. *)
Theorem update_undefined w :
  returns (update None w) = true /\
  obs_value (world_of (update None w)) = None /\
  obs_loaded (world_of (update None w)) = Some (defined (_loaded_S (this w))) /\
  obs_loading (world_of (update None w)) = Some false /\
  obs_hasError (world_of (update None w)) = Some false /\
  obs_errorMessage (world_of (update None w)) = Some None.
Proof.
  rewrite update_eq. cbn [returns world_of]. observe. open_world w.
  destruct lo, li, he, er; splits; reflexivity.
Qed.

(** X20. [reload(f)] starts a load from [f] whether or not the cell had a
    source: loaded=false, loading=true, hasError=false and no error message,
    the value and the saves as before, the load held before closed and the
    new one appended, open and held. *)
Theorem reload_starts w f :
  returns (reload f w) = true /\
  obs_loading (world_of (reload f w)) = Some true /\
  obs_loaded (world_of (reload f w)) = Some false /\
  obs_hasError (world_of (reload f w)) = Some false /\
  obs_errorMessage (world_of (reload f w)) = Some None /\
  obs_value (world_of (reload f w)) = obs_value w /\
  obs_saving (world_of (reload f w)) = obs_saving w /\
  obs_saved (world_of (reload f w)) = obs_saved w /\
  saves (world_of (reload f w)) = saves w /\
  loads (world_of (reload f w))
  = (match subscription (this w) with
     | Some i => alter close i (loads w)
     | None => loads w
     end ++ [mkSubscription f false])%list /\
  subscription (this (world_of (reload f w))) = Some (length (loads w)) /\
  load_open (world_of (reload f w)) (length (loads w)) = true.
Proof.
  rewrite reload_eq. cbn [returns world_of]. unfold reloaded. observe. splits.
  all: try (open_world w; destruct lo, li, he, er; vm_compute; reflexivity).
  - unfold started; cbn [this subscription set_subscription loads on_this].
    rewrite length_unsubscribed. reflexivity.
  - unfold load_open, started; cbn [loads on_this].
    rewrite lookup_app_r by (rewrite length_unsubscribed; cbn; lia).
    rewrite length_unsubscribed. cbn [loads on_this]. rewrite Nat.sub_diag.
    reflexivity.
Qed.

(** ** The value subject after [finish] *)

Lemma refreshed_instance w : instance_S (this (refreshed w)) = instance_S (this w).
Proof.
  unfold refreshed. destruct (construct (this w)); [|reflexivity].
  open_world w. reflexivity.
Qed.

Lemma instance_after_call call w :
  instance_S (this (after_call globalConfig call w)) = instance_S (this w) \/
  (exists v, instance_S (this (after_call globalConfig call w))
             = BehaviorSubject.next v (instance_S (this w))) \/
  instance_S (this (after_call globalConfig call w))
  = BehaviorSubject.complete (instance_S (this w)).
Proof.
  destruct call; cbn [after_call].
  - unfold configured. cbv zeta.
    destruct (_ && _), (defined (cfg_construct config)), (cfg_load config);
      rewrite ?refreshed_instance;
      first [ left; open_world w; reflexivity
            | right; left; exists (cfg_initialValue config);
              open_world w; reflexivity ].
  - unfold value_read. destruct (construct (this w)); [|left; reflexivity].
    destruct (current _ _ _); rewrite ?refreshed_instance;
      left; open_world w; reflexivity.
  - left; open_world w; reflexivity.
  - left; open_world w; reflexivity.
  - left; open_world w; reflexivity.
  - left; open_world w; reflexivity.
  - left; open_world w; reflexivity.
  - left; open_world w; reflexivity.
  - right; left; exists value; open_world w; reflexivity.
  - unfold save_begun. destruct (persist (this w)); left;
      [open_world w|]; reflexivity.
  - left. unfold reloaded. open_world w. reflexivity.
  - right; left; exists item; open_world w; reflexivity.
  - left; open_world w; reflexivity.
  - right; right; open_world w; reflexivity.
  - left; apply refreshed_instance.
  - destruct (load_open w i); [|left; reflexivity].
    right; left; exists (Some item); open_world w; reflexivity.
  - destruct (load_open w i); [|left; reflexivity].
    left. cbn [load_closed this on_this]. open_world w. cbn [this].
    unfold failed; cbn [construct persist defined].
    destruct co, pe; reflexivity.
  - destruct (load_open w i); left; reflexivity.
  - destruct (saves w !! j) as [s|]; [|left; reflexivity].
    destruct (finalised s); left; [|open_world w]; reflexivity.
  - destruct (save_open w j); [|left; reflexivity].
    left. cbn [save_closed this on_this]. open_world w. cbn [this].
    unfold failed; cbn [construct persist defined].
    destruct co, pe; reflexivity.
  - destruct (save_open w j); left; reflexivity.
Qed.

(** X21. Once the value subject is completed (by [finish]) it stays
    completed and its observers are never notified again: along every
    history, no later call or callback adds to what they were sent, whatever
    it does to the stored value. *)
Theorem value_observers_silent_after_finish config calls call :
  isStopped (instance_S (this (history globalConfig config calls))) = true ->
  isStopped (instance_S (this (world_of (exec globalConfig call
                                           (history globalConfig config calls)))))
  = true /\
  observed (instance_S (this (world_of (exec globalConfig call
                                          (history globalConfig config calls)))))
  = observed (instance_S (this (history globalConfig config calls))).
Proof.
  intros Hs.
  rewrite (exec_after call _ (history_wf globalConfig config calls)).
  cbn [world_of].
  destruct (instance_after_call call (history globalConfig config calls))
    as [E|[[v E]|E]]; rewrite E.
  - split; [exact Hs | reflexivity].
  - unfold BehaviorSubject.next; cbn [isStopped observed]. rewrite Hs.
    split; reflexivity.
  - unfold BehaviorSubject.complete; cbn [isStopped observed]. rewrite Hs.
    split; reflexivity.
Qed.

End Coverage.

(** * The properties on concrete cells *)

Import Example.

(** The test of the specification: load A, load B, A delivers late and is
    dropped, B delivers and is stored. *)
Example late_result_is_dropped :
  obs_value (after with_source [Refresh; Refresh; LoadNext 0 1]) = None /\
  obs_value (after with_source [Refresh; Refresh; LoadNext 0 1; LoadNext 1 2])
  = Some 2 /\
  obs_loaded (after with_source [Refresh; Refresh; LoadNext 0 1; LoadNext 1 2])
  = Some true.
Proof. repeat split; vm_compute; reflexivity. Qed.

(** The scenario of the specification without a source: [load: true] has no
    effect, the value reads 5 and loaded is true on first read. *)
Example initial_value_without_source :
  let w := after plain [Configure (mkConfig "cell" (Some 5) None None None None
                                     None true)] in
  obs_value w = Some 5 /\ loads w = [] /\ _loaded_S (this w) = None /\
  obs_loaded w = Some true.
Proof. repeat split; vm_compute; reflexivity. Qed.

Lemma superseded_load_is_noop_witness :
  1 <> length (loads superseded) /\
  load_next 0 7 superseded = Ok tt superseded /\
  load_error policy 0 "late" superseded = Ok tt superseded /\
  load_complete 0 superseded = Ok tt superseded.
Proof.
  split.
  - vm_compute. lia.
  - apply (superseded_load_is_noop policy with_source [Refresh; Refresh] 0 7 "late").
    vm_compute. lia.
Defined.

(** C2: the claim fails.  A cell configured with source 0 on which
    [reload(source1)] is called holds source 1 afterwards, not source 0, and
    a following [refresh()] loads from source 1. *)
Lemma reload_replaces_source :
  construct (this (after with_source [])) = Some 0 /\
  construct (this (after with_source [Reload 1])) = Some 1 /\
  construct (this (after with_source [Reload 1]))
  <> construct (this (after with_source [])) /\
  last (loads (after with_source [Reload 1; Refresh])) = Some (mkSubscription 1 false).
Proof. repeat split; vm_compute; (reflexivity || discriminate). Qed.

(** C3: [finish()] on a cell whose [saving$] and [saved$] exist (a save was
    started) completes the value subject and the four subjects it names, and
    leaves [saving$] and [saved$] open. *)
Theorem finish_leaves_saving_open :
  is_Some (_saving_S (this (after with_sink [Save None]))) /\
  is_Some (_saved_S (this (after with_sink [Save None]))) /\
  isStopped (instance_S (this saved_then_finished)) = true /\
  completed (_hasError_S (this saved_then_finished)) = true /\
  completed (_error_S (this saved_then_finished)) = true /\
  completed (_saving_S (this saved_then_finished)) = false /\
  completed (_saved_S (this saved_then_finished)) = false.
Proof. repeat split; vm_compute; eauto. Qed.

(** C4: the claim fails.  On a finished cell every mutator returns normally;
    none signals a failure. *)
Lemma mutators_not_rejected :
  isStopped (instance_S (this (after plain [Finish]))) = true /\
  returns (update (Some 1) (after plain [Finish])) = true /\
  returns (refresh (after with_source [Finish])) = true /\
  returns (reload 1 (after plain [Finish])) = true /\
  returns (save None (after with_sink [Finish])) = true /\
  returns (reset None (after plain [Finish])) = true /\
  returns (configure with_source (after plain [Finish])) = true.
Proof. repeat split; vm_compute; reflexivity. Qed.

(** C5: [reset(5)] on a new cell, whose [loaded$] does not exist yet, is
    followed by loaded=true on the first read of [loaded$], where the claim
    says loaded=false; the same [reset(5)] on the same cell after [loaded$]
    has been read once leaves loaded=false.  On a cell with a source the
    difference decides whether the next read of [value$] starts a load. *)
Theorem reset_loaded_depends_on_earlier_read :
  _loaded_S (this (after plain [Reset (Some 5)])) = None /\
  obs_value (after plain [Reset (Some 5)]) = Some 5 /\
  obs_loaded (after plain [Reset (Some 5)]) = Some true /\
  obs_loaded (after plain [GetLoaded; Reset (Some 5)]) = Some false /\
  loads (after with_source [Reset (Some 5); GetValue]) = [] /\
  loads (after with_source [GetLoaded; Reset (Some 5); GetValue])
  = [mkSubscription 0 false].
Proof.
  repeat match goal with |- _ /\ _ => split end; vm_compute; reflexivity.
Qed.

(** C6: [update(undefined)] on a new cell, whose [loaded$] does not exist
    yet, is followed by loaded=false on the first read of [loaded$], where
    the claim says loaded=true; the same call on the same cell after
    [loaded$] has been read once leaves loaded=true, as [update] of a present
    value does in both cases. *)
Theorem update_loaded_depends_on_earlier_read :
  _loaded_S (this (after plain [Update None])) = None /\
  obs_value (after plain [Update None]) = None /\
  obs_loaded (after plain [Update None]) = Some false /\
  obs_loaded (after plain [GetLoaded; Update None]) = Some true /\
  obs_loaded (after plain [Update (Some 5)]) = Some true /\
  obs_loaded (after plain [GetLoaded; Update (Some 5)]) = Some true.
Proof.
  repeat match goal with |- _ /\ _ => split end; vm_compute; reflexivity.
Qed.

Lemma errorMessage_chain_witness :
  load_open busy 0 = true /\ save_open busy 0 = true /\
  obs_errorMessage (world_of (load_error policy 0 "net-down" busy))
  = Some (Some "Something went wrong") /\
  obs_errorMessage (world_of (save_error policy 0 "disk-full" busy))
  = Some (spec_errorMessage policy (this busy) "disk-full").
Proof.
  assert (load_open busy 0 = true) as O1 by (vm_compute; reflexivity).
  assert (save_open busy 0 = true) as O2 by (vm_compute; reflexivity).
  destruct (errorMessage_chain policy busy "net-down" 0 0) as (_ & _ & H3).
  destruct (errorMessage_chain policy busy "disk-full" 0 0) as (_ & H2 & _).
  split; [exact O1 | split; [exact O2 | split]].
  - apply H3; [exact O1 | vm_compute; reflexivity ..].
  - apply H2, O2.
Defined.

Lemma failure_flags_witness :
  load_open busy 0 = true /\ save_open busy 0 = true /\
  failure_state busy (world_of (load_error policy 0 "net-down" busy)) /\
  failure_state busy (world_of (save_error policy 0 "disk-full" busy)).
Proof.
  assert (load_open busy 0 = true) as O1 by (vm_compute; reflexivity).
  assert (save_open busy 0 = true) as O2 by (vm_compute; reflexivity).
  destruct (failure_flags policy busy "net-down" 0 0) as (H1 & _).
  destruct (failure_flags policy busy "disk-full" 0 0) as (_ & H2).
  split; [exact O1 | split; [exact O2 | split]].
  - apply H1, O1.
  - apply H2, O2.
Defined.

(** C9: the claim fails.  A cell whose generic text is ["old"], configured
    with the empty string as generic text, keeps ["old"]. *)
Lemma configure_keeps_text_on_empty :
  genericError (this (after with_sink [])) = Some "old" /\
  cfg_genericError empty_text = Some "" /\
  genericError (this (after with_sink [Configure empty_text])) = Some "old" /\
  genericError (this (after with_sink [Configure empty_text]))
  <> cfg_genericError empty_text.
Proof. repeat split; vm_compute; (reflexivity || discriminate). Qed.

Lemma hasError_implies_errorMessage_witness :
  obs_hasError net_down = Some true /\
  obs_hasError (world_of (exec policy (Update (Some 1)) net_down)) = Some false /\
  (exists m, obs_errorMessage net_down = Some (Some m)) /\
  obs_errorMessage (world_of (exec policy (Update (Some 1)) net_down)) = Some None.
Proof.
  assert (obs_hasError net_down = Some true) as E1 by (vm_compute; reflexivity).
  assert (obs_hasError (world_of (exec policy (Update (Some 1)) net_down))
          = Some false) as E2 by (vm_compute; reflexivity).
  destruct (hasError_implies_errorMessage (Ack:=nat) policy with_source
              [Refresh; LoadError 0 "net-down"] (Update (Some 1))) as (H1 & H2).
  split; [exact E1 | split; [exact E2 | split]].
  - exact (H1 E1).
  - exact (H2 E1 E2).
Defined.

Lemma one_load_in_flight_witness :
  load_open one_load 0 = true /\
  0 = 0 /\ subscription (this one_load) = Some 0 /\ 1 = length (loads one_load).
Proof.
  assert (load_open one_load 0 = true) as O by (vm_compute; reflexivity).
  split; [exact O|].
  exact (one_load_in_flight policy with_source [Refresh] 0 0 O O).
Defined.

Lemma flag_getters_are_transparent_witness :
  is_flag_getter (T:=nat) (Err:=string) (Ack:=nat) (Source:=nat) (Sink:=nat)
    (Callback:=nat) GetLoaded = true /\
  observation (world_of (exec policy GetLoaded busy)) = observation busy.
Proof.
  split; [reflexivity|].
  apply (flag_getters_are_transparent policy GetLoaded busy). reflexivity.
Defined.

Lemma value_S_lazy_load_witness :
  construct (this bare) = None /\ world_of (value_S bare) = bare /\
  construct (this loaded_cell) = Some 0 /\ obs_loaded loaded_cell = Some true /\
  loads (world_of (value_S loaded_cell)) = loads loaded_cell /\
  construct (this unloaded_cell) = Some 0 /\ obs_loaded unloaded_cell = Some false /\
  last (loads (world_of (value_S unloaded_cell))) = Some (mkSubscription 0 false).
Proof.
  assert (construct (this bare) = None) as E1 by (vm_compute; reflexivity).
  assert (construct (this loaded_cell) = Some 0) as E2 by (vm_compute; reflexivity).
  assert (obs_loaded loaded_cell = Some true) as E3 by (vm_compute; reflexivity).
  assert (construct (this unloaded_cell) = Some 0) as E4 by (vm_compute; reflexivity).
  assert (obs_loaded unloaded_cell = Some false) as E5 by (vm_compute; reflexivity).
  destruct (value_S_lazy_load bare 0) as (_ & _ & H1 & _).
  destruct (value_S_lazy_load loaded_cell 0) as (_ & _ & _ & H2 & _).
  destruct (value_S_lazy_load unloaded_cell 0) as (_ & _ & _ & _ & H3).
  split; [exact E1|]. split; [exact (H1 E1)|].
  split; [exact E2|]. split; [exact E3|]. split; [exact (proj1 (H2 E2 E3))|].
  split; [exact E4|]. split; [exact E5|]. exact (proj1 (H3 E4 E5)).
Defined.

Lemma save_starts_witness :
  persist (this bare) = None /\ world_of (save (Some 5) bare) = bare /\
  persist (this sink_cell) = Some 0 /\
  obs_saving (world_of (save (Some 5) sink_cell)) = Some true.
Proof.
  assert (persist (this bare) = None) as E1 by (vm_compute; reflexivity).
  assert (persist (this sink_cell) = Some 0) as E2 by (vm_compute; reflexivity).
  destruct (save_starts bare 0 (Some 5)) as (_ & H1 & _).
  destruct (save_starts sink_cell 0 (Some 5)) as (_ & _ & H2).
  split; [exact E1|]. split; [exact (H1 E1)|]. split; [exact E2|].
  exact (proj1 (H2 E2)).
Defined.

Lemma refresh_starts_witness :
  construct (this bare) = None /\ world_of (refresh bare) = bare /\
  construct (this unloaded_cell) = Some 0 /\
  obs_loading (world_of (refresh unloaded_cell)) = Some true.
Proof.
  assert (construct (this bare) = None) as E1 by (vm_compute; reflexivity).
  assert (construct (this unloaded_cell) = Some 0) as E2 by (vm_compute; reflexivity).
  destruct (refresh_starts bare 0) as (_ & H1 & _).
  destruct (refresh_starts unloaded_cell 0) as (_ & _ & H2).
  split; [exact E1|]. split; [exact (H1 E1)|]. split; [exact E2|].
  exact (proj1 (H2 E2)).
Defined.

Lemma load_success_witness :
  load_open one_load 0 = true /\
  obs_value (world_of (load_next 0 7 one_load)) = Some 7.
Proof.
  assert (load_open one_load 0 = true) as O by (vm_compute; reflexivity).
  split; [exact O|].
  exact (proj1 (proj2 (load_success policy with_source [Refresh] 0 7 O))).
Defined.

Lemma save_success_once_witness :
  saves one_save !! 0 = Some (mkSaveSubscription 0 None (Some 5) false) /\
  save_open (world_of (save_next 0 9 one_save)) 0 = false.
Proof.
  assert (saves one_save !! 0 = Some (mkSaveSubscription 0 None (Some 5) false))
    as E by (vm_compute; reflexivity).
  split; [exact E|].
  destruct (save_success_once policy with_sink [Save (Some 5)] 0 _ 9 9 "late" E
              eq_refl) as (_ & _ & _ & _ & _ & _ & _ & _ & _ & H & _).
  exact H.
Defined.

Lemma saves_survive_witness :
  save_open one_save 0 = true /\
  save_open (world_of (exec policy Finish one_save)) 0 = true.
Proof.
  assert (save_open one_save 0 = true) as O by (vm_compute; reflexivity).
  split; [exact O|].
  exact (proj1 (saves_survive policy with_sink [Save (Some 5)] Finish 0 eq_refl O)).
Defined.

Lemma load_survives_witness :
  keeps_load (T:=nat) (Err:=string) (Ack:=nat) (Source:=nat) (Sink:=nat)
    (Callback:=nat) (Update (Some 3)) = true /\
  loads (world_of (exec policy (Update (Some 3)) one_load)) = loads one_load.
Proof.
  split; [reflexivity|].
  exact (proj1 (load_survives policy with_source [Refresh] (Update (Some 3)) eq_refl)).
Defined.

Lemma error_message_never_empty_witness :
  g_genericError policy <> EmptyString /\
  exists m, obs_errorMessage (world_of (runErrorHandler policy "net-down" bare))
            = Some (Some m) /\ m <> EmptyString.
Proof.
  assert (g_genericError policy <> EmptyString) as H by (vm_compute; discriminate).
  split; [exact H|].
  exact (error_message_never_empty policy bare "net-down" H).
Defined.

Lemma own_handler_shadows_global_witness :
  errorHandler (this handler_cell) = Some (fun e => Some ("cell: " ++ e)) /\
  "Something went wrong" <> EmptyString /\
  obs_errorMessage
    (world_of (runErrorHandler
                 (mkGlobalConfig (Some (fun e => Some ("global: " ++ e)))
                    "Something went wrong") "net-down" handler_cell))
  = obs_errorMessage
      (world_of (runErrorHandler (mkGlobalConfig None "Something went wrong")
                   "net-down" handler_cell)).
Proof.
  assert (errorHandler (this handler_cell) = Some (fun e => Some ("cell: " ++ e)))
    as E by (vm_compute; reflexivity).
  assert ("Something went wrong" <> EmptyString) as H by discriminate.
  split; [exact E|]. split; [exact H|].
  exact (proj2 (own_handler_shadows_global handler_cell "net-down" _
                  (Some (fun e => Some ("global: " ++ e))) None
                  "Something went wrong" E H)).
Defined.

Lemma configure_initialValue_witness :
  has_value (this bare) = false /\ cfg_initialValue seeded = Some 5 /\
  obs_loaded (world_of (configure seeded bare)) = Some true.
Proof.
  assert (has_value (this bare) = false) as E1 by (vm_compute; reflexivity).
  split; [exact E1|]. split; [reflexivity|].
  destruct (configure_initialValue seeded bare 5) as (_ & _ & H).
  apply H; [exact E1 | reflexivity | vm_compute; reflexivity].
Defined.

Lemma configure_source_and_load_witness :
  cfg_load load_now = true /\
  js_or_obj (cfg_construct load_now) (construct (this unloaded_cell)) = Some 1 /\
  last (loads (world_of (configure load_now unloaded_cell)))
  = Some (mkSubscription 1 false) /\
  cfg_construct with_source = Some 0 /\ cfg_load with_source = false /\
  load_open (world_of (configure with_source one_load)) 0 = false.
Proof.
  assert (js_or_obj (cfg_construct load_now) (construct (this unloaded_cell)) = Some 1)
    as E by (vm_compute; reflexivity).
  destruct (configure_source_and_load policy load_now unloaded_cell 1 with_source
              [Refresh] 0) as (H1 & _ & _).
  destruct (configure_source_and_load policy with_source unloaded_cell 0 with_source
              [Refresh] 0) as (_ & _ & H3).
  split; [reflexivity|]. split; [exact E|].
  split; [exact (proj1 (H1 eq_refl E))|].
  split; [reflexivity|]. split; [reflexivity|].
  exact (proj2 (proj2 (H3 eq_refl eq_refl))).
Defined.

Lemma value_observers_silent_after_finish_witness :
  isStopped (instance_S (this finished)) = true /\
  observed (instance_S (this (world_of (exec policy (Update (Some 1)) finished))))
  = observed (instance_S (this finished)).
Proof.
  assert (isStopped (instance_S (this finished)) = true) as E
    by (vm_compute; reflexivity).
  split; [exact E|].
  exact (proj2 (value_observers_silent_after_finish policy plain [Finish]
                  (Update (Some 1)) E)).
Defined.
